(** * TikTok downloader core (src/modules/ytdl/index.ts): shallow embedding

    The second half of [src/modules/ytdl/index.ts] (from line 108 on) is the
    TikTok resolution-and-retrieval pipeline: [validateURL], the markup
    extraction [extractVideoDataFromJson], the backup API
    [getMediaInfoFromAPI], the downloaders [downloadImages] and
    [downloadVideo], and the orchestrator [processUrl].

    JavaScript values that flow through the code untyped (the parsed JSON,
    the API payload) are the inductive [jv].  Numbers are modelled as
    integers ([Z]); the code only does integer arithmetic on them.  The
    external collaborators (HTTP client, cheerio, [JSON.parse], the file
    system, the host time zone) are the fields of a record [Env]; every
    network oracle also receives the log of the requests made so far, which
    stands for the cookie jar and any server-side state. *)

From Stdlib Require Import String Ascii List ZArith Bool Lia.
Import ListNotations.
Open Scope string_scope.

(** ** JavaScript values *)

#[local] Set Warnings "-register-all".

Inductive jv : Type :=
| JUndef
| JNull
| JBool (b : bool)
| JNum (z : Z)
| JStr (s : string)
| JArr (l : list jv)
| JObj (l : list (string * jv)).

(** JavaScript truthiness ([!x], [if (x)], [x || y]). *)
Definition truthy (v : jv) : bool :=
  match v with
  | JUndef | JNull => false
  | JBool b => b
  | JNum z => negb (Z.eqb z 0)
  | JStr s => negb (String.eqb s "")
  | JArr _ | JObj _ => true
  end.

(** [x || y] *)
Definition js_or (x y : jv) : jv := if truthy x then x else y.

(** ** Decimal rendering of integers *)

Fixpoint digits_of_nat (fuel n : nat) (acc : string) : string :=
  match fuel with
  | O => acc
  | S f =>
      let d := ascii_of_nat (48 + Nat.modulo n 10) in
      let acc' := String d acc in
      if Nat.ltb n 10 then acc' else digits_of_nat f (Nat.div n 10) acc'
  end.

Definition string_of_nat (n : nat) : string := digits_of_nat (S n) n "".

(** [Number.prototype.toString] on an integer. *)
Definition string_of_Z (z : Z) : string :=
  if Z.ltb z 0 then "-" ++ string_of_nat (Z.to_nat (Z.opp z))
  else string_of_nat (Z.to_nat z).

(** ** Conversions [String(v)] and [ToNumber(v)] *)

(** [String(v)], used by template literals.  Arrays join their elements
    with commas, [null] and [undefined] elements rendering as empty. *)
Fixpoint js_to_string (v : jv) : string :=
  match v with
  | JUndef => "undefined"
  | JNull => "null"
  | JBool true => "true"
  | JBool false => "false"
  | JNum z => string_of_Z z
  | JStr s => s
  | JArr l =>
      let elem (x : jv) : string :=
        match x with JUndef | JNull => "" | _ => js_to_string x end in
      (fix join (l : list jv) : string :=
         match l with
         | [] => ""
         | [x] => elem x
         | x :: r => elem x ++ "," ++ join r
         end) l
  | JObj _ => "[object Object]"
  end.

Definition is_ws (c : ascii) : bool :=
  match nat_of_ascii c with
  | 9 | 10 | 11 | 12 | 13 | 32 => true
  | _ => false
  end.

Fixpoint drop_ws (s : string) : string :=
  match s with
  | EmptyString => EmptyString
  | String c r => if is_ws c then drop_ws r else s
  end.

Fixpoint rev_str (s acc : string) : string :=
  match s with
  | EmptyString => acc
  | String c r => rev_str r (String c acc)
  end.

Definition trim (s : string) : string :=
  rev_str (drop_ws (rev_str (drop_ws s) "")) "".

Fixpoint parse_digits (s : string) (acc : Z) : option Z :=
  match s with
  | EmptyString => Some acc
  | String c r =>
      let n := nat_of_ascii c in
      if andb (Nat.leb 48 n) (Nat.leb n 57)
      then parse_digits r (acc * 10 + Z.of_nat (n - 48))%Z
      else None
  end.

(** [ToNumber] of a string, for decimal integer literals: surrounding white
    space is dropped, the empty string is 0; [None] is [NaN]. *)
Definition string_to_number (s : string) : option Z :=
  match trim s with
  | EmptyString => Some 0%Z
  | String "-" (String _ _ as r) => option_map Z.opp (parse_digits r 0)
  | String "+" (String _ _ as r) => parse_digits r 0
  | t => parse_digits t 0
  end.

(** [ToNumber(v)]; [None] is [NaN]. *)
Definition js_to_number (v : jv) : option Z :=
  match v with
  | JUndef => None
  | JNull => Some 0%Z
  | JBool b => Some (if b then 1 else 0)%Z
  | JNum z => Some z
  | JStr s => string_to_number s
  | JArr [] => Some 0%Z
  | JArr [x] => string_to_number (js_to_string x)
  | JArr _ => None
  | JObj _ => None
  end.

(** ** Results and property access *)

(** Outcome of a computation that may throw; [RErr m] is an [Error] whose
    [message] is [m]. *)
Inductive res (A : Type) : Type :=
| ROk (a : A)
| RErr (msg : string).
Arguments ROk {A} a.
Arguments RErr {A} msg.

(** A canonical array index ("0", "1", ..., no leading zero). *)
Definition array_index (p : string) : option nat :=
  match p with
  | String "0" EmptyString => Some O
  | String "0" _ => None
  | EmptyString => None
  | _ => option_map Z.to_nat (parse_digits p 0)
  end.

Fixpoint assoc (p : string) (l : list (string * jv)) : jv :=
  match l with
  | [] => JUndef
  | (k, v) :: r => if String.eqb k p then v else assoc p r
  end.

Definition type_error (what p : string) : string :=
  "Cannot read properties of " ++ what ++ " (reading '" ++ p ++ "')".

(** [v.p] and [v[p]]: reading a property of [undefined] or [null] throws a
    [TypeError]; a missing property is [undefined]. *)
Definition get (v : jv) (p : string) : res jv :=
  match v with
  | JUndef => RErr (type_error "undefined" p)
  | JNull => RErr (type_error "null" p)
  | JObj l => ROk (assoc p l)
  | JArr l =>
      if String.eqb p "length" then ROk (JNum (Z.of_nat (length l)))
      else match array_index p with
           | Some n => ROk (nth n l JUndef)
           | None => ROk JUndef
           end
  | JStr s =>
      if String.eqb p "length" then ROk (JNum (Z.of_nat (String.length s)))
      else match array_index p with
           | Some n =>
               if Nat.ltb n (String.length s)
               then ROk (JStr (String.substring n 1 s)) else ROk JUndef
           | None => ROk JUndef
           end
  | JBool _ | JNum _ => ROk JUndef
  end.

(** [v?.p]: short-circuits to [undefined] on [undefined] and [null]. *)
Definition get_opt (v : jv) (p : string) : res jv :=
  match v with
  | JUndef | JNull => ROk JUndef
  | _ => get v p
  end.

(** [a !== b] between a value and a string literal. *)
Definition neq_str (v : jv) (s : string) : bool :=
  match v with
  | JStr t => negb (String.eqb t s)
  | _ => true
  end.

(** ** [formatUploadDate] (index.ts 159-162) *)

(** Day number to proleptic Gregorian (year, month, day). *)
Definition civil_from_days (days : Z) : Z * Z * Z :=
  let z := (days + 719468)%Z in
  let era := (z / 146097)%Z in
  let doe := (z - era * 146097)%Z in
  let yoe := ((doe - doe / 1460 + doe / 36524 - doe / 146096) / 365)%Z in
  let doy := (doe - (365 * yoe + yoe / 4 - yoe / 100))%Z in
  let mp := ((5 * doy + 2) / 153)%Z in
  let d := (doy - (153 * mp + 2) / 5 + 1)%Z in
  let m := (if Z.ltb mp 10 then mp + 3 else mp - 9)%Z in
  let y := (yoe + era * 400 + (if Z.leb m 2 then 1 else 0))%Z in
  (y, m, d).

Definition ms_per_day : Z := 86400000.
Definition max_time_value : Z := 8640000000000000.

(** [s.padStart(2, "0")] *)
Definition pad2 (s : string) : string :=
  match String.length s with
  | O => "00"
  | 1 => "0" ++ s
  | _ => s
  end.

(** [new Date(timestamp * 1000)] read back with the local-time getters
    [getDate], [getMonth] and [getFullYear].  [tz t] is the host's offset
    (in ms) of local time from UTC at the UTC time value [t].  An invalid
    [Date] renders every field as "NaN". *)
Definition formatUploadDate (tz : Z -> Z) (timestamp : jv) : string :=
  match js_to_number timestamp with
  | None => "NaNNaNNaN"
  | Some n =>
      let t := (n * 1000)%Z in
      if Z.ltb max_time_value (Z.abs t) then "NaNNaNNaN"
      else
        let '(y, m, d) := civil_from_days ((t + tz t) / ms_per_day)%Z in
        pad2 (string_of_Z d) ++ pad2 (string_of_Z m) ++ string_of_Z y
  end.

(** ** [validateURL] (index.ts 144, 170-173) *)

(** [.] in a JavaScript regular expression does not match a line
    terminator: LF, CR, and U+2028/U+2029 (UTF-8 E2 80 A8/A9). *)
Fixpoint no_line_terminator (s : string) : bool :=
  match s with
  | EmptyString => true
  | String c r =>
      match nat_of_ascii c with
      | 10 | 13 => false
      | 226 =>
          match r with
          | String c1 (String c2 _) =>
              if andb (Nat.eqb (nat_of_ascii c1) 128)
                      (orb (Nat.eqb (nat_of_ascii c2) 168)
                           (Nat.eqb (nat_of_ascii c2) 169))
              then false else no_line_terminator r
          | _ => no_line_terminator r
          end
      | _ => no_line_terminator r
      end
  end.

(** The part [tiktok\.com], optional slash, then any characters up to the
    end of input, on the rest of the string. *)
Definition host_tail_matches (r : string) : bool :=
  String.prefix "tiktok.com" r
  && no_line_terminator (String.substring 10 (String.length r) r).

(** [(www\.|vm\.|vt\.)?] followed by [host_tail_matches]. *)
Definition after_scheme_matches (r : string) : bool :=
  existsb (fun pre => String.prefix pre r
                      && host_tail_matches (String.substring 4 (String.length r) r))
          ["www."]
  || existsb (fun pre => String.prefix pre r
                      && host_tail_matches (String.substring 3 (String.length r) r))
          ["vm."; "vt."]
  || host_tail_matches r.

(** [TIKTOK_URL_REGEX.test(url)] *)
Definition tiktok_url_regex_test (url : string) : bool :=
  (String.prefix "https://" url
   && after_scheme_matches (String.substring 8 (String.length url) url))
  || (String.prefix "http://" url
      && after_scheme_matches (String.substring 7 (String.length url) url)).

Definition validateURL (url : string) : bool :=
  if String.eqb url "" then false else tiktok_url_regex_test url.

(** [s.includes(pat)] *)
Fixpoint str_includes (pat s : string) : bool :=
  String.prefix pat s
  || match s with
     | EmptyString => false
     | String _ r => str_includes pat r
     end.

(** ** [encodeURIComponent] *)

Definition uri_unreserved (c : ascii) : bool :=
  let n := nat_of_ascii c in
  (Nat.leb 65 n && Nat.leb n 90) || (Nat.leb 97 n && Nat.leb n 122)
  || (Nat.leb 48 n && Nat.leb n 57)
  || existsb (Nat.eqb n) [45; 95; 46; 33; 126; 42; 39; 40; 41].

Definition hex_digit (n : nat) : ascii :=
  if Nat.ltb n 10 then ascii_of_nat (48 + n) else ascii_of_nat (55 + n).

(** Other bytes are percent-encoded one by one, upper-case hex; on the
    UTF-8 encoding of a well-formed string this is what
    [encodeURIComponent] produces. *)
Fixpoint encodeURIComponent (s : string) : string :=
  match s with
  | EmptyString => EmptyString
  | String c r =>
      if uri_unreserved c then String c (encodeURIComponent r)
      else let n := nat_of_ascii c in
           String "%" (String (hex_digit (n / 16))
                         (String (hex_digit (n mod 16)) (encodeURIComponent r)))
  end.


(** ** Records of the source (index.ts 120-140) *)

Inductive Status := Success | Failed.

(** [DownloadStat]; [id] and [author] hold whatever value the code put there. *)
Record DownloadStat := mkStat {
  st_type : string;
  st_id : jv;
  st_author : jv;
  st_status : Status;
  st_details : string
}.

(** [VideoData]; the fields hold whatever value extraction read. *)
Record VideoData := mkVideoData {
  authorUniqueId : jv;
  videoId : jv;
  createTime : jv;
  videoUrl : jv;
  description : jv
}.

(** ** Effects *)

(** Requests issued to the network, in order. *)
Inductive event :=
| EvHtml (url : string)                 (* handleHtml: GET page *)
| EvApi (apiUrl : string)               (* getMediaInfoFromAPI *)
| EvGet (url : jv) (referer : string).  (* binary GET of a media file *)

(** Spinner effects (colouring dropped). *)
Inductive spin :=
| SpinStart (text : string)
| SpinText (text : string)
| SpinSucceed (text : string)
| SpinFail (text : string).

(** The external collaborators. *)
Record Env := mkEnv {
  env_html : list event -> string -> res string;      (* page GET: res.data *)
  env_markup : string -> option (option string);
    (* cheerio: no rehydration element, or the first child's [data] *)
  env_json_parse : string -> option jv;                (* JSON.parse; None = SyntaxError *)
  env_api : list event -> string -> res jv;            (* API GET: response.data *)
  env_get : list event -> jv -> string -> res jv;      (* media GET (url, Referer) *)
  env_write : string -> string -> jv -> res unit;      (* fs.writeFileSync(path.join(dir, name)) *)
  env_tz : Z -> Z                                      (* local-time offset in ms *)
}.

(** Session state: [ledger] is the module-level [downloadStats] array. *)
Record St := mkSt {
  ledger : list DownloadStat;
  files : list (string * string * jv);   (* (directory, file name, bytes) written *)
  dirs : list string;
  netlog : list event;
  spinner : list spin
}.

Definition M (A : Type) : Type := St -> res A * St.

Definition ret {A} (a : A) : M A := fun s => (ROk a, s).

Definition bind {A B} (m : M A) (k : A -> M B) : M B :=
  fun s => match m s with
           | (ROk a, s') => k a s'
           | (RErr e, s') => (RErr e, s')
           end.

Definition throw {A} (msg : string) : M A := fun s => (RErr msg, s).

(** [try { m } catch (error) { h(error.message) }] *)
Definition try_catch {A} (m : M A) (h : string -> M A) : M A :=
  fun s => match m s with
           | (RErr e, s') => h e s'
           | r => r
           end.

Definition lift {A} (r : res A) : M A := fun s => (r, s).

Notation "x <- m ;; k" := (bind m (fun x => k))
  (at level 61, m at next level, right associativity).
Notation "' p <- m ;; k" := (bind m (fun x => match x with p => k end))
  (at level 61, p pattern, m at next level, right associativity).
Notation "m ;; k" := (bind m (fun _ : unit => k))
  (at level 61, right associativity).

Definition modify (f : St -> St) : M unit := fun s => (ROk tt, f s).

Definition push_stat (d : DownloadStat) : M unit :=
  modify (fun s => mkSt (ledger s ++ [d]) (files s) (dirs s) (netlog s) (spinner s)).

Definition spin_ev (e : spin) : M unit :=
  modify (fun s => mkSt (ledger s) (files s) (dirs s) (netlog s) (spinner s ++ [e])).

Definition log_event (e : event) : St -> St :=
  fun s => mkSt (ledger s) (files s) (dirs s) (netlog s ++ [e]) (spinner s).

Section Program.

Variable env : Env.

(** ** Network and file system (index.ts 164-207) *)

Definition ensureDirectoryExists (dir : string) : M unit :=
  modify (fun s => if existsb (String.eqb dir) (dirs s) then s
                   else mkSt (ledger s) (files s) (dirs s ++ [dir]) (netlog s) (spinner s)).

Definition writeFileSync (dir name : string) (data : jv) : M unit :=
  fun s => match env_write env dir name data with
           | ROk _ => (ROk tt, mkSt (ledger s) (files s ++ [(dir, name, data)])
                                 (dirs s) (netlog s) (spinner s))
           | RErr e => (RErr e, s)
           end.

Definition handleHtml (url : string) : M string :=
  fun s => (env_html env (netlog s) url, log_event (EvHtml url) s).

(** [downloadFile] and the GET in the image loop. *)
Definition downloadFile (url : jv) (referer : string) : M jv :=
  fun s => (env_get env (netlog s) url referer, log_event (EvGet url referer) s).

Definition API_URL : string := "https://api-tiktok-downloader.vercel.app/api/v4/download".
Definition VIDEO_DIR : string := "./tiktok-videos".
Definition IMAGE_DIR : string := "./tiktok-images".

Definition api_get (apiUrl : string) : M jv :=
  fun s => (env_api env (netlog s) apiUrl, log_event (EvApi apiUrl) s).

(** [const apiUrl = `${API_URL}?url=${encodeURIComponent(url)}`] *)
Definition api_request_url (url : string) : string :=
  API_URL ++ "?url=" ++ encodeURIComponent url.

Definition getMediaInfoFromAPI (url : string) : M jv :=
  data <- api_get (api_request_url url) ;;
  status <- lift (get data "status") ;;
  if neq_str status "success" then throw ("API Error: " ++ js_to_string status)
  else lift (get data "result").

(** ** [downloadImages] (index.ts 209-240) *)

(** The body of the [for] loop at index [i], [successCount] being [count]. *)
Definition image_step (url : string) (imageId imageUrls timestamp authorId len : jv)
    (i count : nat) : M nat :=
  spin_ev (SpinText ("Downloading Image " ++ string_of_nat (S i) ++ "/"
                     ++ js_to_string len ++ "...")) ;;
  imageUrl <- lift (get imageUrls (string_of_nat i)) ;;
  data <- downloadFile imageUrl url ;;
  let formattedDate := formatUploadDate (env_tz env) timestamp in
  let fileName := js_to_string authorId ++ "_img_" ++ formattedDate ++ "_"
                  ++ js_to_string imageId ++ "_" ++ string_of_nat (S i) ++ ".jpg" in
  writeFileSync IMAGE_DIR fileName data ;;
  ret (S count).

(** [k] iterations of the loop starting at index [i]. *)
Fixpoint image_loop (url : string) (imageId imageUrls timestamp authorId len : jv)
    (i k count : nat) : M nat :=
  match k with
  | O => ret count
  | S k' =>
      c <- image_step url imageId imageUrls timestamp authorId len i count ;;
      image_loop url imageId imageUrls timestamp authorId len (S i) k' c
  end.

(** Number of iterations of [for (i = 0; i < len; i++)]. *)
Definition loop_count (len : jv) : nat :=
  match js_to_number len with
  | Some n => Z.to_nat n
  | None => O
  end.

Definition downloadImages (url : string) (imageId imageUrls timestamp authorId : jv)
    : M unit :=
  try_catch
    (ensureDirectoryExists IMAGE_DIR ;;
     len <- lift (get imageUrls "length") ;;
     successCount <- image_loop url imageId imageUrls timestamp authorId len
                               O (loop_count len) O ;;
     push_stat (mkStat "Photo Slide" imageId authorId Success
                       (string_of_nat successCount ++ " Images")))
    (fun msg =>
       push_stat (mkStat "Photo" (js_or imageId (JStr "Unknown"))
                         (js_or authorId (JStr "Unknown")) Failed msg) ;;
       throw msg).

(** ** [downloadVideo] (index.ts 242-264) *)

Definition video_file_name (videoData : VideoData) : string :=
  js_to_string (authorUniqueId videoData) ++ "_vid_"
  ++ formatUploadDate (env_tz env) (createTime videoData) ++ "_"
  ++ js_to_string (videoId videoData) ++ ".mp4".

Definition downloadVideo (videoData : VideoData) (url : string) : M string :=
  try_catch
    (videoBuffer <- downloadFile (videoUrl videoData) url ;;
     let fileName := video_file_name videoData in
     ensureDirectoryExists VIDEO_DIR ;;
     writeFileSync VIDEO_DIR fileName videoBuffer ;;
     push_stat (mkStat "Video" (videoId videoData) (authorUniqueId videoData)
                       Success "MP4 Saved") ;;
     ret fileName)
    (fun msg =>
       push_stat (mkStat "Video" (js_or (videoId videoData) (JStr "Unknown"))
                         (js_or (authorUniqueId videoData) (JStr "Unknown"))
                         Failed msg) ;;
       throw msg).

(** ** [extractVideoDataFromJson] (index.ts 266-293) *)

Definition res_bind {A B} (r : res A) (k : A -> res B) : res B :=
  match r with ROk a => k a | RErr e => RErr e end.

Notation "x <-- r ;; k" := (res_bind r (fun x => k))
  (at level 61, r at next level, right associativity).

(** [video.bitrateInfo?.length > 0] *)
Definition positive_length (v : jv) : bool :=
  match js_to_number v with Some n => Z.ltb 0 n | None => false end.

(** The body of the [try] block; an exception is [RErr]. *)
Definition extract_body (rawJSON : string) : res (option VideoData) :=
  parsedJSON <-- (match env_json_parse env rawJSON with
                  | Some j => ROk j
                  | None => RErr "Unexpected token in JSON"
                  end) ;;
  scope <-- get_opt parsedJSON "__DEFAULT_SCOPE__" ;;
  videoDetail <-- get_opt scope "webapp.video-detail" ;;
  if negb (truthy videoDetail) then ROk None else
  itemInfo <-- get videoDetail "itemInfo" ;;
  itemStruct <-- get_opt itemInfo "itemStruct" ;;
  if negb (truthy itemStruct) then ROk None else
  author <-- get itemStruct "author" ;;
  video <-- get itemStruct "video" ;;
  if negb (truthy author) || negb (truthy video) then ROk None else
  playAddr <-- get video "playAddr" ;;
  bitrateInfo <-- get video "bitrateInfo" ;;
  bl <-- get_opt bitrateInfo "length" ;;
  videoUrl <--
    (if positive_length bl then
       b0 <-- get bitrateInfo "0" ;;
       pa <-- get b0 "PlayAddr" ;;
       ul <-- get_opt pa "UrlList" ;;
       u0 <-- get_opt ul "0" ;;
       if truthy u0 then ROk u0 else ROk playAddr
     else ROk playAddr) ;;
  uid <-- get author "uniqueId" ;;
  id <-- get itemStruct "id" ;;
  ct <-- get itemStruct "createTime" ;;
  desc <-- get itemStruct "desc" ;;
  ROk (Some (mkVideoData uid id ct videoUrl desc)).

Definition extractVideoDataFromJson (rawJSON : string) : option VideoData :=
  match extract_body rawJSON with
  | ROk r => r
  | RErr _ => None
  end.

(** ** [processUrl] (index.ts 295-358) *)

(** Photo branch up to the call of [downloadImages]: the API query, the
    shape check and the evaluation of the call's arguments. *)
Definition resolve_photo (url : string) : M (jv * jv * jv * jv) :=
  spin_ev (SpinText "Fetching photo metadata via API...") ;;
  photoData <- getMediaInfoFromAPI url ;;
  ty <- lift (get photoData "type") ;;
  images <- (if neq_str ty "image" then ret JUndef else lift (get photoData "images")) ;;
  if neq_str ty "image" || negb (truthy images)
  then throw "Invalid photo data structure"
  else
    len <- lift (get images "length") ;;
    spin_ev (SpinText ("Found " ++ js_to_string len ++ " images. Starting download...")) ;;
    id <- lift (get photoData "id") ;;
    ct <- lift (get photoData "createTime") ;;
    author <- lift (get photoData "author") ;;
    username <- lift (get author "username") ;;
    ret (id, images, ct, username).

(** Lines 322-332: the markup strategy, every exception ignored. *)
Definition markup_strategy (url : string) : M (option VideoData) :=
  try_catch
    (html <- handleHtml url ;;
     ret (match env_markup env html with
          | Some (Some rawJSON) =>
              if String.eqb rawJSON "" then None else extractVideoDataFromJson rawJSON
          | _ => None
          end))
    (fun _ => ret None).

(** Lines 334-349: the backup-API strategy. *)
Definition api_strategy (url : string) : M VideoData :=
  spin_ev (SpinText "HTML extraction failed. Switching to API backup...") ;;
  apiData <- getMediaInfoFromAPI url ;;
  ty <- lift (get apiData "type") ;;
  playAddr <- (if neq_str ty "video" then ret JUndef
               else v <- lift (get apiData "video") ;; lift (get_opt v "playAddr")) ;;
  if neq_str ty "video" || negb (truthy playAddr)
  then throw "API failed to retrieve video data"
  else
    author <- lift (get apiData "author") ;;
    username <- lift (get author "username") ;;
    id <- lift (get apiData "id") ;;
    ct <- lift (get apiData "createTime") ;;
    u0 <- lift (get playAddr "0") ;;
    ret (mkVideoData username id ct u0 JUndef).

(** Video branch up to the call of [downloadVideo]. *)
Definition resolve_video (url : string) : M (VideoData * string) :=
  spin_ev (SpinText "Attempting direct HTML extraction...") ;;
  md <- markup_strategy url ;;
  match md with
  | Some vd => ret (vd, "HTML")
  | None => vd <- api_strategy url ;; ret (vd, "API")
  end.

Definition process_body (url : string) : M unit :=
  if negb (validateURL url) then spin_ev (SpinFail "Invalid TikTok URL format!")
  else if str_includes "/photo/" url then
    '(id, images, ct, username) <- resolve_photo url ;;
    downloadImages url id images ct username ;;
    spin_ev (SpinSucceed "Photo slide downloaded successfully!")
  else
    '(videoData, method) <- resolve_video url ;;
    spin_ev (SpinText ("Downloading video (" ++ method ++ ")...")) ;;
    _ <- downloadVideo videoData url ;;
    spin_ev (SpinSucceed "Video downloaded successfully!").

(** [processUrl]: every exception of the body is caught and reported on
    the spinner; the function returns normally in every case. *)
Definition processUrl (url : string) (s : St) : St :=
  snd ((spin_ev (SpinStart "Analyzing URL...") ;;
        try_catch (process_body url) (fun msg => spin_ev (SpinFail ("Error: " ++ msg)))) s).

(** State after [ora('Analyzing URL...').start()]. *)
Definition start_state (s : St) : St := snd (spin_ev (SpinStart "Analyzing URL...") s).



End Program.

(** The shape the markup strategy looks for: a parsed rehydration
    document whose [itemStruct] is [item]. *)
Definition rehydration_doc (item : jv) : jv :=
  JObj [("__DEFAULT_SCOPE__",
         JObj [("webapp.video-detail", JObj [("itemInfo", JObj [("itemStruct", item)])])])].

(** ** Concrete inputs used by the witnesses and counterexamples *)
Module Inputs.

Definition st0 : St := mkSt [] [] [] [] [].

Definition photo_url : string := "https://www.tiktok.com/@ab/photo/7000".
Definition video_url : string := "https://vt.tiktok.com/ABCDEF/".

(** An API payload [{status: "success", result: r}]. *)
Definition api_ok (r : jv) : jv := JObj [("status", JStr "success"); ("result", r)].

Definition photo_fields (images : list jv) : list (string * jv) :=
  [("type", JStr "image"); ("id", JStr "7000"); ("createTime", JNum 1709596800);
   ("author", JObj [("username", JStr "ab")]); ("images", JArr images)].

Definition photo_result (images : list jv) : jv := JObj (photo_fields images).

Definition video_result (playAddr : list jv) (username : jv) : jv :=
  JObj [("type", JStr "video"); ("id", JStr "123"); ("createTime", JNum 1709596800);
        ("author", JObj [("username", username)]);
        ("video", JObj [("playAddr", JArr playAddr)])].

(** An environment: page fetches give [html], cheerio finds [markup],
    JSON.parse gives [parsed], the API answers [api], media GETs fail on the
    URLs in [bad] and on non-string URLs, writes succeed, the host offset is [tz] ms. *)
Definition env_of (html : res string) (markup : option (option string))
    (parsed : option jv) (api : res jv) (bad : list string) (tz : Z) : Env :=
  mkEnv (fun _ _ => html)
        (fun _ => markup)
        (fun _ => parsed)
        (fun _ _ => api)
        (fun _ u _ => match u with
                      | JStr x => if existsb (String.eqb x) bad
                                  then RErr "Request failed with status code 404"
                                  else ROk (JStr ("bytes of " ++ x))
                      | _ => RErr "Invalid URL"
                      end)
        (fun _ _ _ => ROk tt)
        (fun _ => tz).

(** Photo set of three images whose second GET fails. *)
Definition photo3_env : Env :=
  env_of (RErr "unused") None None
         (ROk (api_ok (photo_result [JStr "u1"; JStr "u2"; JStr "u3"]))) ["u2"] 0.




End Inputs.

(** * White space, [showSummary] and [main] (index.ts 362-424) *)

(** Number of bytes of the JavaScript [WhiteSpace] or [LineTerminator]
    character (the class [\s], and what [String.prototype.trim] removes)
    at the start of [s], 0 if there is none: TAB, LF, VT, FF, CR, SPACE,
    U+00A0, U+1680, U+2000-U+200A, U+2028, U+2029, U+202F, U+205F, U+3000
    and U+FEFF, in their UTF-8 encoding. *)
Definition js_ws_len (s : string) : nat :=
  match s with
  | EmptyString => O
  | String c r =>
      if is_ws c then 1 else
      match nat_of_ascii c, r with
      | 194, String c1 _ => if Nat.eqb (nat_of_ascii c1) 160 then 2 else O
      | 225, String c1 (String c2 _) =>
          if Nat.eqb (nat_of_ascii c1) 154 && Nat.eqb (nat_of_ascii c2) 128 then 3 else O
      | 226, String c1 (String c2 _) =>
          let n1 := nat_of_ascii c1 in
          let n2 := nat_of_ascii c2 in
          if (Nat.eqb n1 128 && (Nat.leb 128 n2 && Nat.leb n2 138
                                 || Nat.eqb n2 168 || Nat.eqb n2 169 || Nat.eqb n2 175))
             || (Nat.eqb n1 129 && Nat.eqb n2 159)
          then 3 else O
      | 227, String c1 (String c2 _) =>
          if Nat.eqb (nat_of_ascii c1) 128 && Nat.eqb (nat_of_ascii c2) 128 then 3 else O
      | 239, String c1 (String c2 _) =>
          if Nat.eqb (nat_of_ascii c1) 187 && Nat.eqb (nat_of_ascii c2) 191 then 3 else O
      | _, _ => O
      end
  end.

Definition drop_bytes (k : nat) (s : string) : string :=
  String.substring k (String.length s - k) s.

Fixpoint drop_js_ws_f (fuel : nat) (s : string) : string :=
  match fuel with
  | O => s
  | S f =>
      match js_ws_len s with
      | O => s
      | k => drop_js_ws_f f (drop_bytes k s)
      end
  end.

(** [s.trimStart()] *)
Definition drop_js_ws (s : string) : string := drop_js_ws_f (String.length s) s.

(** [s.trimEnd()] on well-formed UTF-8, where no white space character
    starts inside a multi-byte character: the longest suffix made of white
    space characters is cut. *)
Fixpoint trim_end (s : string) : string :=
  match s with
  | EmptyString => EmptyString
  | String c r =>
      if String.eqb (drop_js_ws s) "" then EmptyString else String c (trim_end r)
  end.

(** [s.trim()] *)
Definition js_trim (s : string) : string := trim_end (drop_js_ws s).

(** The name the image loop gives to the image of 1-based index [j]. *)
Definition image_file_name (env : Env) (imageId timestamp authorId : jv) (j : nat) : string :=
  js_to_string authorId ++ "_img_" ++ formatUploadDate (env_tz env) timestamp ++ "_"
  ++ js_to_string imageId ++ "_" ++ string_of_nat j ++ ".jpg".

Definition status_label (st : Status) : string :=
  match st with Success => "Success" | Failed => "Failed" end.

(** One row of the summary table: type, author, status (coloured green or
    red, the colour dropped) and details; the id is not shown. *)
Definition summary_row (stat : DownloadStat) : list jv :=
  [JStr (st_type stat); st_author stat; JStr (status_label (st_status stat));
   JStr (st_details stat)].

(** [showSummary]: nothing is printed when [downloadStats] is empty,
    otherwise the table of one row per record. *)
Definition showSummary (downloadStats : list DownloadStat) : option (list (list jv)) :=
  match downloadStats with
  | [] => None
  | _ => Some (map summary_row downloadStats)
  end.

(** The URL prompt: its [validate] option refuses an empty answer and asks
    again, so it returns the first non-empty line typed ([None]: still
    waiting). *)
Fixpoint first_nonempty (typed : list string) : option string :=
  match typed with
  | [] => None
  | x :: r => if String.eqb x "" then first_nonempty r else Some x
  end.

(** The [while (keepRunning)] loop of [main]: each round is the lines typed
    at the URL prompt and the answer to "download again?".  [None]: the
    program is still waiting for input. *)
Fixpoint main_loop (env : Env) (rounds : list (list string * bool)) (s : St) : option St :=
  match rounds with
  | [] => None
  | (typed, again) :: rest =>
      match first_nonempty typed with
      | None => None
      | Some u =>
          let s' := processUrl env (js_trim u) s in
          if again then main_loop env rest s' else Some s'
      end
  end.

(** [downloadStats] starts empty; nothing was fetched or written. *)
Definition initial_state : St := mkSt [] [] [] [] [].

(** [main]: what [showSummary] prints once the loop ends ([None] while the
    program is still waiting for input). *)
Definition main (env : Env) (rounds : list (list string * bool))
    : option (option (list (list jv))) :=
  option_map (fun s => showSummary (ledger s)) (main_loop env rounds initial_state).

(** * [YouTubeService] (index.ts 1-105) *)

(** A thrown value: an instance of [VideoDownloadError] (its [message] and
    its [code]) or any other JavaScript value; an [Error] of the runtime or
    of ytdl-core is an object with a [message] property. *)
Inductive exn :=
| VideoDownloadError (message code : string)
| JsThrow (v : jv).

Inductive xres (A : Type) : Type :=
| XOk (a : A)
| XErr (e : exn).
Arguments XOk {A} a.
Arguments XErr {A} e.

Definition xbind {A B} (r : xres A) (k : A -> xres B) : xres B :=
  match r with XOk a => k a | XErr e => XErr e end.

Notation "x <~ r ;; k" := (xbind r (fun x => k))
  (at level 61, r at next level, right associativity).

(** [try { r } catch (error) { h(error) }] *)
Definition xcatch {A} (r : xres A) (h : exn -> xres A) : xres A :=
  match r with XErr e => h e | XOk a => XOk a end.

(** A [TypeError] thrown by the runtime. *)
Definition type_error_obj (m : string) : jv :=
  JObj [("name", JStr "TypeError"); ("message", JStr m)].

(** [v.p], throwing a [TypeError] on [undefined] and [null]. *)
Definition xget (v : jv) (p : string) : xres jv :=
  match get v p with
  | ROk x => XOk x
  | RErr m => XErr (JsThrow (type_error_obj m))
  end.

(** [error.message] *)
Definition exn_message (e : exn) : xres jv :=
  match e with
  | VideoDownloadError m _ => XOk (JStr m)
  | JsThrow v => xget v "message"
  end.

(** What ytdl-core provides ([inr v]: the call throws, or its promise
    rejects with, [v]).  [chooseFormat] receives the [formats] and the
    [filter] option; the quality option is always ['highest']. *)
Record Ytdl := mkYtdl {
  ytdl_validateURL : string -> option bool;      (* None: it threw *)
  ytdl_getInfo : string -> jv + jv;
  ytdl_chooseFormat : jv -> (jv -> xres bool) -> jv + jv;
  ytdl_downloadFromInfo : jv -> jv -> jv + jv    (* info, format: the stream *)
}.

Definition lib {A} (r : A + jv) : xres A :=
  match r with inl a => XOk a | inr v => XErr (JsThrow v) end.

Definition is_word_char (c : ascii) : bool :=
  let n := nat_of_ascii c in
  (Nat.leb 65 n && Nat.leb n 90) || (Nat.leb 97 n && Nat.leb n 122)
  || (Nat.leb 48 n && Nat.leb n 57) || Nat.eqb n 95.

(** Length of the UTF-8 sequence a lead byte starts (1 for a stray byte). *)
Definition utf8_len (c : ascii) : nat :=
  let n := nat_of_ascii c in
  if Nat.ltb n 192 then 1
  else if Nat.ltb n 224 then 2
  else if Nat.ltb n 240 then 3
  else if Nat.ltb n 248 then 4
  else 1.

(** [title.replace(/[^\w\s]/gi, '')] on the UTF-8 bytes of a well-formed
    string: an ASCII character stays when it is a word character
    ([A-Za-z0-9_]) or white space; a non-ASCII character stays only when it
    is one of the white space characters of [\s].  (Outside the BMP a
    character is a surrogate pair in JavaScript: both halves go.) *)
Fixpoint strip_non_word_f (fuel : nat) (s : string) : string :=
  match fuel, s with
  | O, _ => EmptyString
  | _, EmptyString => EmptyString
  | S f, String c r =>
      if Nat.ltb (nat_of_ascii c) 128 then
        (if is_word_char c || is_ws c then String c EmptyString else EmptyString)
        ++ strip_non_word_f f r
      else
        match js_ws_len s with
        | O => strip_non_word_f f (drop_bytes (utf8_len c) s)
        | k => String.substring 0 k s ++ strip_non_word_f f (drop_bytes k s)
        end
  end.

Definition strip_non_word (s : string) : string := strip_non_word_f (String.length s) s.

(** [info.videoDetails.title.replace(...)] on the value of [title]. *)
Definition title_replace (title : jv) : xres string :=
  match title with
  | JStr s => XOk (strip_non_word s)
  | JUndef => XErr (JsThrow (type_error_obj (type_error "undefined" "replace")))
  | JNull => XErr (JsThrow (type_error_obj (type_error "null" "replace")))
  | _ => XErr (JsThrow (type_error_obj "info.videoDetails.title.replace is not a function"))
  end.

(** Value of a digit in radix up to 36 (36 for a non-digit). *)
Definition digit_value (c : ascii) : nat :=
  let n := nat_of_ascii c in
  if Nat.leb 48 n && Nat.leb n 57 then n - 48
  else if Nat.leb 97 n && Nat.leb n 122 then n - 87
  else if Nat.leb 65 n && Nat.leb n 90 then n - 55
  else 36.

(** The longest prefix of radix-[radix] digits; [None] when it is empty. *)
Fixpoint parse_radix_prefix (radix : nat) (s : string) (acc : Z) (seen : bool) : option Z :=
  match s with
  | String c r =>
      if Nat.ltb (digit_value c) radix
      then parse_radix_prefix radix r (acc * Z.of_nat radix + Z.of_nat (digit_value c))%Z true
      else if seen then Some acc else None
  | EmptyString => if seen then Some acc else None
  end.

(** [parseInt(string)] with no radix; [None] is [NaN].  Leading white
    space goes, then a sign, then a "0x"/"0X" prefix selects radix 16.
    The value is the exact integer (doubles round above 2^53). *)
Definition parseInt (input : string) : option Z :=
  let s := drop_js_ws input in
  let '(sign, s1) :=
    match s with
    | String c r =>
        if Ascii.eqb c "-" then ((-1)%Z, r)
        else if Ascii.eqb c "+" then (1%Z, r) else (1%Z, s)
    | EmptyString => (1%Z, s)
    end in
  let '(radix, s2) :=
    match s1 with
    | String c0 (String c r) =>
        if Ascii.eqb c0 "0" && (Ascii.eqb c "x" || Ascii.eqb c "X") then (16, r) else (10, s1)
    | _ => (10, s1)
    end in
  option_map (Z.mul sign) (parse_radix_prefix radix s2 0 false).

(** The object [downloadMp4] resolves to: the stream, the title and the
    size ([None] is [NaN]).  The stream's [error] events, re-emitted later
    on the [PassThrough] as [STREAM_ERROR], are not part of the call. *)
Record Mp4 := mkMp4 { mp4_stream : jv; mp4_title : string; mp4_size : option Z }.

Section YouTube.

Variable yt : Ytdl.

Definition validateUrl (url : string) : bool :=
  match ytdl_validateURL yt url with Some b => b | None => false end.

Definition getVideoInfo (url : string) : xres jv :=
  if negb (validateUrl url)
  then XErr (VideoDownloadError "Invalid YouTube URL provided" "INVALID_URL")
  else
    xcatch
      (info <~ lib (ytdl_getInfo yt url) ;;
       vd <~ xget info "videoDetails" ;;
       priv <~ xget vd "isPrivate" ;;
       if truthy priv then XErr (VideoDownloadError "Video is private" "VIDEO_PRIVATE")
       else
         vd' <~ xget info "videoDetails" ;;
         _ <~ xget vd' "age_restricted" ;;
         XOk info)
      (fun error =>
         match error with
         | VideoDownloadError _ _ => XErr error
         | JsThrow _ =>
             m <~ exn_message error ;;
             XErr (VideoDownloadError
                     (js_to_string (js_or m (JStr "Failed to fetch video metadata")))
                     "METADATA_FETCH_FAILED")
         end).

(** The [filter] passed to [chooseFormat]. *)
Definition mp4_filter (format : jv) : xres bool :=
  container <~ xget format "container" ;;
  if negb (match container with JStr c => String.eqb c "mp4" | _ => false end)
  then XOk false else
  hasAudio <~ xget format "hasAudio" ;;
  if negb (match hasAudio with JBool true => true | _ => false end)
  then XOk false else
  hasVideo <~ xget format "hasVideo" ;;
  XOk (match hasVideo with JBool true => true | _ => false end).

Definition downloadMp4 (url : string) : xres Mp4 :=
  info <~ getVideoInfo url ;;
  formats <~ xget info "formats" ;;
  format <~ lib (ytdl_chooseFormat yt formats mp4_filter) ;;
  if negb (truthy format)
  then XErr (VideoDownloadError "No suitable MP4 (Audio+Video) format found"
                                "FORMAT_UNAVAILABLE")
  else
    xcatch
      (stream <~ lib (ytdl_downloadFromInfo yt info format) ;;
       vd <~ xget info "videoDetails" ;;
       t <~ xget vd "title" ;;
       title <~ title_replace t ;;
       cl <~ xget format "contentLength" ;;
       XOk (mkMp4 stream title
                  (if truthy cl then parseInt (js_to_string cl) else Some 0%Z)))
      (fun error =>
         m <~ exn_message error ;;
         XErr (VideoDownloadError
                 (js_to_string (js_or m (JStr "Download stream initialization failed")))
                 "DOWNLOAD_INIT_FAILED")).

End YouTube.

(** * Effect framework: what a computation does to the ledger and the log *)

Open Scope list_scope.

(** [m] leaves the session ledger untouched. *)
Definition keeps_ledger {A} (m : M A) : Prop :=
  forall s, ledger (snd (m s)) = ledger s.

(** [m] only appends to the request log, and every request it appends
    satisfies [P]. *)
Definition log_grows {A} (P : event -> Prop) (m : M A) : Prop :=
  forall s, exists r, netlog (snd (m s)) = netlog s ++ r /\ Forall P r.

(** [m] logs exactly the requests [l]. *)
Definition logs_exactly {A} (l : list event) (m : M A) : Prop :=
  forall s, netlog (snd (m s)) = netlog s ++ l.

(** The first request [m] appends is [e]; the later ones satisfy [P]. *)
Definition starts_log {A} (e : event) (P : event -> Prop) (m : M A) : Prop :=
  forall s, exists r, netlog (snd (m s)) = netlog s ++ e :: r /\ Forall P r.

Definition not_api (e : event) : Prop :=
  match e with EvApi _ => False | _ => True end.

Definition not_html (e : event) : Prop :=
  match e with EvHtml _ => False | _ => True end.

Section Framework.

Context {A B : Type}.

Lemma keeps_ret (a : A) : keeps_ledger (ret a).
Proof. intro s; reflexivity. Qed.

Lemma keeps_throw (e : string) : keeps_ledger (@throw A e).
Proof. intro s; reflexivity. Qed.

Lemma keeps_lift (r : res A) : keeps_ledger (lift r).
Proof. intro s; reflexivity. Qed.

Lemma keeps_bind (m : M A) (k : A -> M B) :
  keeps_ledger m -> (forall a, keeps_ledger (k a)) -> keeps_ledger (bind m k).
Proof.
  intros Hm Hk s; unfold bind.
  specialize (Hm s); destruct (m s) as [[a|e] s'] eqn:E; simpl in *.
  - rewrite Hk; exact Hm.
  - exact Hm.
Qed.

Lemma keeps_try_catch (m : M A) (h : string -> M A) :
  keeps_ledger m -> (forall e, keeps_ledger (h e)) -> keeps_ledger (try_catch m h).
Proof.
  intros Hm Hh s; unfold try_catch.
  specialize (Hm s); destruct (m s) as [[a|e] s'] eqn:E; simpl in *.
  - exact Hm.
  - rewrite Hh; exact Hm.
Qed.

Lemma grows_ret P (a : A) : log_grows P (ret a).
Proof. intro s; exists []; rewrite app_nil_r; auto. Qed.

Lemma grows_throw P (e : string) : log_grows P (@throw A e).
Proof. intro s; exists []; rewrite app_nil_r; auto. Qed.

Lemma grows_lift P (r : res A) : log_grows P (lift r).
Proof. intro s; exists []; rewrite app_nil_r; auto. Qed.

Lemma grows_bind P (m : M A) (k : A -> M B) :
  log_grows P m -> (forall a, log_grows P (k a)) -> log_grows P (bind m k).
Proof.
  intros Hm Hk s; unfold bind.
  destruct (Hm s) as [r1 [E1 F1]].
  destruct (m s) as [[a|e] s'] eqn:E; simpl in *.
  - destruct (Hk a s') as [r2 [E2 F2]].
    exists (r1 ++ r2); split.
    + rewrite E2, E1, app_assoc; reflexivity.
    + apply Forall_app; auto.
  - exists r1; auto.
Qed.

Lemma grows_try_catch P (m : M A) (h : string -> M A) :
  log_grows P m -> (forall e, log_grows P (h e)) -> log_grows P (try_catch m h).
Proof.
  intros Hm Hh s; unfold try_catch.
  destruct (Hm s) as [r1 [E1 F1]].
  destruct (m s) as [[a|e] s'] eqn:E; simpl in *.
  - exists r1; auto.
  - destruct (Hh e s') as [r2 [E2 F2]].
    exists (r1 ++ r2); split.
    + rewrite E2, E1, app_assoc; reflexivity.
    + apply Forall_app; auto.
Qed.

End Framework.

Lemma keeps_spin e : keeps_ledger (spin_ev e).
Proof. intro s; reflexivity. Qed.

Lemma grows_spin P e : log_grows P (spin_ev e).
Proof. intro s; exists []; rewrite app_nil_r; auto. Qed.

Section Primitives.

Variable env : Env.

Lemma keeps_ensureDirectoryExists d : keeps_ledger (ensureDirectoryExists d).
Proof. intro s; unfold ensureDirectoryExists, modify; simpl; destruct existsb; reflexivity. Qed.

Lemma grows_ensureDirectoryExists P d : log_grows P (ensureDirectoryExists d).
Proof.
  intro s; exists []; rewrite app_nil_r; unfold ensureDirectoryExists, modify; simpl.
  destruct existsb; auto.
Qed.

Lemma keeps_writeFileSync d n b : keeps_ledger (writeFileSync env d n b).
Proof. intro s; unfold writeFileSync; destruct env_write; reflexivity. Qed.

Lemma grows_writeFileSync P d n b : log_grows P (writeFileSync env d n b).
Proof.
  intro s; exists []; rewrite app_nil_r; unfold writeFileSync; destruct env_write; auto.
Qed.

Lemma keeps_handleHtml u : keeps_ledger (handleHtml env u).
Proof. intro s; reflexivity. Qed.

Lemma grows_handleHtml (P : event -> Prop) u : P (EvHtml u) -> log_grows P (handleHtml env u).
Proof. intros HP s; exists [EvHtml u]; auto. Qed.

Lemma keeps_downloadFile u r : keeps_ledger (downloadFile env u r).
Proof. intro s; reflexivity. Qed.

Lemma grows_downloadFile (P : event -> Prop) u r :
  P (EvGet u r) -> log_grows P (downloadFile env u r).
Proof. intros HP s; exists [EvGet u r]; auto. Qed.

Lemma keeps_api_get u : keeps_ledger (api_get env u).
Proof. intro s; reflexivity. Qed.

Lemma grows_api_get (P : event -> Prop) u : P (EvApi u) -> log_grows P (api_get env u).
Proof. intros HP s; exists [EvApi u]; auto. Qed.

End Primitives.

Create HintDb effects.
#[export] Hint Resolve keeps_ret keeps_throw keeps_lift keeps_spin
  keeps_ensureDirectoryExists keeps_writeFileSync keeps_handleHtml
  keeps_downloadFile keeps_api_get : effects.
#[export] Hint Resolve grows_ret grows_throw grows_lift grows_spin
  grows_ensureDirectoryExists grows_writeFileSync : effects.

(** Decompose a monadic program into its primitives. *)
Ltac effects :=
  repeat match goal with
  | |- keeps_ledger (bind _ _) => apply keeps_bind; [|intro]
  | |- keeps_ledger (try_catch _ _) => apply keeps_try_catch; [|intro]
  | |- log_grows _ (bind _ _) => apply grows_bind; [|intro]
  | |- log_grows _ (try_catch _ _) => apply grows_try_catch; [|intro]
  | |- keeps_ledger (match ?x with _ => _ end) => destruct x
  | |- log_grows _ (match ?x with _ => _ end) => destruct x
  | |- keeps_ledger (if ?b then _ else _) => destruct b
  | |- log_grows _ (if ?b then _ else _) => destruct b
  | |- log_grows _ (handleHtml _ _) => apply grows_handleHtml
  | |- log_grows _ (downloadFile _ _ _) => apply grows_downloadFile
  | |- log_grows _ (api_get _ _) => apply grows_api_get
  | |- _ => solve [auto with effects]
  end.

Section Stages.

Variable env : Env.

Lemma keeps_getMediaInfoFromAPI u : keeps_ledger (getMediaInfoFromAPI env u).
Proof. unfold getMediaInfoFromAPI; effects. Qed.

Lemma keeps_resolve_photo u : keeps_ledger (resolve_photo env u).
Proof. unfold resolve_photo; effects; apply keeps_getMediaInfoFromAPI. Qed.

Lemma keeps_markup_strategy u : keeps_ledger (markup_strategy env u).
Proof. unfold markup_strategy; effects. Qed.

Lemma keeps_api_strategy u : keeps_ledger (api_strategy env u).
Proof. unfold api_strategy; effects; apply keeps_getMediaInfoFromAPI. Qed.

Lemma keeps_resolve_video u : keeps_ledger (resolve_video env u).
Proof.
  unfold resolve_video; effects.
  - apply keeps_markup_strategy.
  - apply keeps_api_strategy.
Qed.

Lemma keeps_image_loop u id imgs ct au len i k c :
  keeps_ledger (image_loop env u id imgs ct au len i k c).
Proof.
  revert i c; induction k as [|k IH]; intros i c; simpl.
  - apply keeps_ret.
  - apply keeps_bind; [|intro; apply IH].
    unfold image_step; effects.
Qed.

(** [downloadImages] appends exactly one record: a "Photo Slide" success,
    or on any exception a "Photo" failure carrying the message. *)
Lemma downloadImages_ledger u id imgs ct au s :
  match downloadImages env u id imgs ct au s with
  | (ROk _, s') =>
      exists n, ledger s' = ledger s ++
        [mkStat "Photo Slide" id au Success (string_of_nat n ++ " Images")]
  | (RErr m, s') =>
      ledger s' = ledger s ++
        [mkStat "Photo" (js_or id (JStr "Unknown")) (js_or au (JStr "Unknown")) Failed m]
  end.
Proof.
  unfold downloadImages, try_catch, bind.
  pose proof (keeps_ensureDirectoryExists IMAGE_DIR s) as H1.
  destruct (ensureDirectoryExists IMAGE_DIR s) as [[[]|e1] s1]; simpl in H1 |- *.
  2: { rewrite <- H1; reflexivity. }
  destruct (get imgs "length") as [len|e2]; simpl.
  2: { rewrite <- H1; reflexivity. }
  pose proof (keeps_image_loop u id imgs ct au len 0 (loop_count len) 0 s1) as H2.
  destruct (image_loop env u id imgs ct au len 0 (loop_count len) 0 s1)
    as [[n|e3] s2]; simpl in H2 |- *.
  - exists n; rewrite H2, H1; reflexivity.
  - rewrite H2, H1; reflexivity.
Qed.

(** [downloadVideo] appends exactly one "Video" record. *)
Lemma downloadVideo_ledger vd u s :
  match downloadVideo env vd u s with
  | (ROk _, s') =>
      ledger s' = ledger s ++
        [mkStat "Video" (videoId vd) (authorUniqueId vd) Success "MP4 Saved"]
  | (RErr m, s') =>
      ledger s' = ledger s ++
        [mkStat "Video" (js_or (videoId vd) (JStr "Unknown"))
                (js_or (authorUniqueId vd) (JStr "Unknown")) Failed m]
  end.
Proof.
  unfold downloadVideo, try_catch, bind.
  destruct (downloadFile env (videoUrl vd) u s) as [[b|e1] s1] eqn:E1.
  2: { unfold downloadFile in E1; injection E1 as _ <-; reflexivity. }
  unfold downloadFile in E1; injection E1 as _ <-.
  pose proof (keeps_ensureDirectoryExists VIDEO_DIR (log_event (EvGet (videoUrl vd) u) s)) as H1.
  destruct (ensureDirectoryExists VIDEO_DIR (log_event (EvGet (videoUrl vd) u) s))
    as [[[]|e2] s2]; simpl in H1 |- *.
  2: { rewrite H1; reflexivity. }
  unfold writeFileSync; destruct (env_write env VIDEO_DIR (video_file_name env vd) b); simpl.
  - rewrite H1; reflexivity.
  - rewrite H1; reflexivity.
Qed.

End Stages.

Lemma string_append_assoc (a b c : string) :
  ((a ++ b) ++ c)%string = (a ++ b ++ c)%string.
Proof. induction a as [|x a IH]; simpl; [reflexivity|rewrite IH; reflexivity]. Qed.

Lemma processUrl_eq env url s :
  processUrl env url s =
  snd (try_catch (process_body env url)
         (fun msg => spin_ev (SpinFail ("Error: " ++ msg))) (start_state s)).
Proof. reflexivity. Qed.

(** * Claims *)


(** * Order of the requests *)

Section Ordering.

Context {A B : Type}.

Lemma starts_bind_first e P (m : M A) (k : A -> M B) :
  logs_exactly [e] m -> (forall a, log_grows P (k a)) -> starts_log e P (bind m k).
Proof.
  intros Hm Hk s; unfold bind; specialize (Hm s).
  destruct (m s) as [[a|x] s'] eqn:E; simpl in *.
  - destruct (Hk a s') as [r [E2 F2]]; exists r; split; auto.
    rewrite E2, Hm, <- app_assoc; reflexivity.
  - exists []; auto.
Qed.

Lemma starts_bind_grow e P (m : M A) (k : A -> M B) :
  starts_log e P m -> (forall a, log_grows P (k a)) -> starts_log e P (bind m k).
Proof.
  intros Hm Hk s; unfold bind; destruct (Hm s) as [r1 [E1 F1]].
  destruct (m s) as [[a|x] s'] eqn:E; simpl in *.
  - destruct (Hk a s') as [r2 [E2 F2]]; exists (r1 ++ r2); split.
    + rewrite E2, E1, <- app_assoc; reflexivity.
    + apply Forall_app; auto.
  - exists r1; auto.
Qed.

Lemma starts_spin e P t (k : unit -> M A) :
  starts_log e P (k tt) -> starts_log e P (bind (spin_ev t) k).
Proof. intros Hk s; apply (Hk (snd (spin_ev t s))). Qed.

Lemma starts_try_catch e P (m : M A) (h : string -> M A) :
  starts_log e P m -> (forall x, log_grows P (h x)) -> starts_log e P (try_catch m h).
Proof.
  intros Hm Hh s; unfold try_catch; destruct (Hm s) as [r1 [E1 F1]].
  destruct (m s) as [[a|x] s'] eqn:E; simpl in *.
  - exists r1; auto.
  - destruct (Hh x s') as [r2 [E2 F2]]; exists (r1 ++ r2); split.
    + rewrite E2, E1, <- app_assoc; reflexivity.
    + apply Forall_app; auto.
Qed.

Lemma try_catch_bind_ok (m : M A) (k : A -> M B) h s a s2 :
  m s = (ROk a, s2) -> try_catch (bind m k) h s = try_catch (k a) h s2.
Proof. intro E; unfold try_catch, bind; rewrite E; reflexivity. Qed.

End Ordering.

Lemma grows_push_stat P d : log_grows P (push_stat d).
Proof. intro s; exists []; rewrite app_nil_r; auto. Qed.
#[export] Hint Resolve grows_push_stat : effects.


Section LogStages.

Variable env : Env.

Lemma logs_api_get u : logs_exactly [EvApi u] (api_get env u).
Proof. intro s; reflexivity. Qed.

Lemma logs_handleHtml u : logs_exactly [EvHtml u] (handleHtml env u).
Proof. intro s; reflexivity. Qed.

Lemma starts_getMediaInfoFromAPI P url :
  starts_log (EvApi (api_request_url url)) P (getMediaInfoFromAPI env url).
Proof.
  unfold getMediaInfoFromAPI; apply starts_bind_first; [apply logs_api_get|].
  intro; effects.
Qed.

Lemma starts_resolve_photo P url :
  starts_log (EvApi (api_request_url url)) P (resolve_photo env url).
Proof.
  unfold resolve_photo; apply starts_spin.
  apply starts_bind_grow; [apply starts_getMediaInfoFromAPI|]; intro; effects.
Qed.

Lemma starts_markup_strategy P url :
  starts_log (EvHtml url) P (markup_strategy env url).
Proof.
  unfold markup_strategy; apply starts_try_catch; [|intro; effects].
  apply starts_bind_first; [apply logs_handleHtml|]; intro; effects.
Qed.

Lemma grows_getMediaInfoFromAPI url : log_grows (fun _ => True) (getMediaInfoFromAPI env url).
Proof. unfold getMediaInfoFromAPI; effects. Qed.

Lemma grows_api_strategy url : log_grows (fun _ => True) (api_strategy env url).
Proof.
  unfold api_strategy; effects; apply grows_getMediaInfoFromAPI.
Qed.

Lemma starts_resolve_video url :
  starts_log (EvHtml url) (fun _ => True) (resolve_video env url).
Proof.
  unfold resolve_video; apply starts_spin.
  apply starts_bind_grow; [apply starts_markup_strategy|]; intro; effects.
  apply grows_api_strategy.
Qed.

Lemma grows_downloadVideo (P : event -> Prop) vd url :
  (forall u r, P (EvGet u r)) -> log_grows P (downloadVideo env vd url).
Proof. intro HP; unfold downloadVideo; effects. Qed.

Lemma grows_image_loop (P : event -> Prop) url id imgs ct au len i k c :
  (forall u r, P (EvGet u r)) -> log_grows P (image_loop env url id imgs ct au len i k c).
Proof.
  intro HP; revert i c; induction k as [|k IH]; intros i c; simpl; [apply grows_ret|].
  apply grows_bind; [|intro; apply IH].
  unfold image_step; effects.
Qed.

Lemma grows_downloadImages (P : event -> Prop) url id imgs ct au :
  (forall u r, P (EvGet u r)) -> log_grows P (downloadImages env url id imgs ct au).
Proof. intro HP; unfold downloadImages; effects; apply grows_image_loop; auto. Qed.

End LogStages.

Section ProcessLog.

Variable env : Env.

Lemma markup_strategy_fst_netlog url s s' :
  netlog s = netlog s' ->
  fst (markup_strategy env url s) = fst (markup_strategy env url s').
Proof.
  intro H; unfold markup_strategy, try_catch, bind, handleHtml; rewrite H.
  destruct (env_html env (netlog s') url); reflexivity.
Qed.

Lemma markup_strategy_netlog url s :
  netlog (snd (markup_strategy env url s)) = netlog s ++ [EvHtml url].
Proof.
  destruct (starts_markup_strategy env (fun _ => False) url s) as [r [E F]].
  destruct r as [|e r]; [exact E|]. inversion F; contradiction.
Qed.

Lemma resolve_video_hit url s vd :
  fst (markup_strategy env url s) = ROk (Some vd) ->
  exists s2, resolve_video env url s = (ROk (vd, "HTML"), s2) /\
             netlog s2 = netlog s ++ [EvHtml url].
Proof.
  intro H; unfold resolve_video.
  set (s' := snd (spin_ev (SpinText "Attempting direct HTML extraction...") s)).
  assert (Hn : netlog s' = netlog s) by reflexivity.
  rewrite (markup_strategy_fst_netlog url s s') in H by (symmetry; exact Hn).
  pose proof (markup_strategy_netlog url s') as Hl.
  destruct (markup_strategy env url s') as [r2 s2] eqn:E; cbn [fst snd] in H, Hl; subst r2.
  exists s2; split.
  - unfold bind at 1. change (spin_ev _ s) with (ROk tt, s'). cbv beta iota.
    unfold bind; rewrite E; reflexivity.
  - rewrite Hl; reflexivity.
Qed.

(** The request log of [processUrl] on a valid photo URL. *)
Lemma processUrl_photo_log url s :
  validateURL url = true -> str_includes "/photo/" url = true ->
  exists r, netlog (processUrl env url s) = netlog s ++ EvApi (api_request_url url) :: r
            /\ Forall not_html r.
Proof.
  intros Hv Hp; rewrite processUrl_eq; unfold process_body; rewrite Hv, Hp.
  cbv beta iota delta [negb].
  change (netlog s) with (netlog (start_state s)); generalize (start_state s).
  apply starts_try_catch; [|intro; effects].
  apply starts_bind_grow; [apply starts_resolve_photo|].
  intros [[[id imgs] ct] au]; apply grows_bind; [|intro; effects].
  apply grows_downloadImages; simpl; auto.
Qed.

(** The request log of [processUrl] on a valid non-photo URL. *)
Lemma processUrl_video_log url s :
  validateURL url = true -> str_includes "/photo/" url = false ->
  exists r, netlog (processUrl env url s) = netlog s ++ EvHtml url :: r.
Proof.
  intros Hv Hp.
  assert (H : starts_log (EvHtml url) (fun _ => True)
                (try_catch (process_body env url)
                   (fun msg => spin_ev (SpinFail ("Error: " ++ msg))))).
  { unfold process_body; rewrite Hv, Hp; cbv beta iota delta [negb].
    apply starts_try_catch; [|intro; effects].
    apply starts_bind_grow; [apply starts_resolve_video|].
    intros [vd meth]; effects; apply grows_downloadVideo; auto. }
  destruct (H (start_state s)) as [r [E _]]; exists r; rewrite processUrl_eq; exact E.
Qed.


Lemma markup_strategy_ok url s : exists md, fst (markup_strategy env url s) = ROk md.
Proof.
  unfold markup_strategy, try_catch, bind, handleHtml.
  destruct (env_html env (netlog s) url); simpl; eauto.
Qed.



Lemma try_catch_bind_tail {A B} (P : event -> Prop) (m : M A) (k : A -> M B) h s s2 :
  snd (m s) = s2 ->
  (forall a, log_grows P (k a)) -> (forall e, log_grows P (h e)) ->
  exists r, netlog (snd (try_catch (bind m k) h s)) = netlog s2 ++ r /\ Forall P r.
Proof.
  intros E Hk Hh; unfold try_catch, bind.
  destruct (m s) as [[a|e] s2']; simpl in E; subst s2'.
  - destruct (Hk a s2) as [r [E2 F2]].
    destruct (k a s2) as [[b|e'] s3]; simpl in *.
    + eauto.
    + destruct (Hh e' s3) as [r' [E' F']]; exists (r ++ r'); split.
      * rewrite E', E2, app_assoc; reflexivity.
      * apply Forall_app; auto.
  - apply Hh.
Qed.

Ltac video_tail P Hr :=
  match goal with
  | E : netlog (snd (try_catch (bind ?m ?k) ?h ?s0)) = _ |- _ =>
      let Hk := fresh in let Hh := fresh in
      assert (Hk : forall a, log_grows P (k a))
        by (intros [? ?]; effects; apply grows_downloadVideo; simpl; auto);
      assert (Hh : forall e, log_grows P (h e)) by (intro; effects);
      destruct (try_catch_bind_tail P m k h s0 _ Hr Hk Hh) as [?r' [?E' ?F']]
  end.

Lemma processUrl_hit_no_api url s r vd :
  validateURL url = true -> str_includes "/photo/" url = false ->
  netlog (processUrl env url s) = netlog s ++ EvHtml url :: r ->
  fst (markup_strategy env url s) = ROk (Some vd) -> Forall not_api r.
Proof.
  intros Hv Hp E Hm.
  rewrite (markup_strategy_fst_netlog url s (start_state s) eq_refl) in Hm.
  destruct (resolve_video_hit url (start_state s) vd Hm) as [s2 [Hr Hn]].
  rewrite processUrl_eq in E; unfold process_body in E; rewrite Hv, Hp in E.
  cbv beta iota delta [negb] in E.
  video_tail not_api (f_equal snd Hr).
  rewrite E' in E; cbn [snd] in E; rewrite Hn, <- app_assoc in E; simpl in E.
  apply app_inv_head in E; injection E as <-; exact F'.
Qed.


End ProcessLog.

(** * Claims (continued) *)

(** C4.  On a valid video URL the first request [processUrl] makes is the
    page fetch of the markup strategy; when that strategy yields a
    [VideoData], none of the later requests is a backup-API request. *)
Theorem markup_first_and_api_skipped_on_hit env url s :
  validateURL url = true -> str_includes "/photo/" url = false ->
  exists r, netlog (processUrl env url s) = netlog s ++ EvHtml url :: r /\
    (forall vd, fst (markup_strategy env url s) = ROk (Some vd) ->
                forall a, ~ In (EvApi a) r).
Proof.
  intros Hv Hp.
  destruct (processUrl_video_log env url s Hv Hp) as [r E]; exists r; split; [exact E|].
  intros vd Hm a Hin.
  pose proof (processUrl_hit_no_api env url s r vd Hv Hp E Hm) as F.
  rewrite Forall_forall in F; exact (F _ Hin).
Qed.

Lemma markup_first_and_api_skipped_on_hit_witness :
  validateURL Inputs.video_url = true /\
  str_includes "/photo/" Inputs.video_url = false /\
  exists r, netlog (processUrl (Inputs.env_of (ROk "<html>") (Some (Some "J"))
                    (Some (rehydration_doc (JObj [("id", JStr "123");
                        ("createTime", JNum 1709596800);
                        ("author", JObj [("uniqueId", JStr "ab")]);
                        ("video", JObj [("playAddr", JStr "https://v/1.mp4")])])))
                    (RErr "unused") [] 0) Inputs.video_url Inputs.st0)
            = netlog Inputs.st0 ++ EvHtml Inputs.video_url :: r /\
    (forall vd, fst (markup_strategy (Inputs.env_of (ROk "<html>") (Some (Some "J"))
                    (Some (rehydration_doc (JObj [("id", JStr "123");
                        ("createTime", JNum 1709596800);
                        ("author", JObj [("uniqueId", JStr "ab")]);
                        ("video", JObj [("playAddr", JStr "https://v/1.mp4")])])))
                    (RErr "unused") [] 0) Inputs.video_url Inputs.st0) = ROk (Some vd) ->
                forall a, ~ In (EvApi a) r).
Proof.
  split; [reflexivity|]; split; [reflexivity|].
  apply markup_first_and_api_skipped_on_hit; reflexivity.
Defined.

(** C9.  A valid URL is handled as a photo set exactly when the raw string
    contains "/photo/" anywhere: then the first request is the backup-API
    query and the page is never fetched; otherwise the first request is the
    page fetch of the video path. *)
Theorem classify_by_photo_substring env url s :
  validateURL url = true ->
  (str_includes "/photo/" url = true ->
     exists r, netlog (processUrl env url s) = netlog s ++ EvApi (api_request_url url) :: r
               /\ Forall not_html r)
  /\ (str_includes "/photo/" url = false ->
     exists r, netlog (processUrl env url s) = netlog s ++ EvHtml url :: r).
Proof.
  intro Hv; split; intro Hp.
  - apply processUrl_photo_log; assumption.
  - apply processUrl_video_log; assumption.
Qed.

(** The substring may sit in the query string of a video link. *)
Lemma classify_by_photo_substring_witness :
  validateURL "https://www.tiktok.com/@ab/video/123?from=/photo/" = true /\
  str_includes "/photo/" "https://www.tiktok.com/@ab/video/123?from=/photo/" = true /\
  exists r, netlog (processUrl (Inputs.env_of (RErr "unused") None None
                    (ROk (Inputs.api_ok (Inputs.photo_result [JStr "u1"]))) [] 0)
                  "https://www.tiktok.com/@ab/video/123?from=/photo/" Inputs.st0)
            = netlog Inputs.st0 ++
              EvApi (api_request_url "https://www.tiktok.com/@ab/video/123?from=/photo/") :: r
            /\ Forall not_html r.
Proof.
  split; [reflexivity|]; split; [reflexivity|].
  refine (proj1 (classify_by_photo_substring _ _ _ _) _); reflexivity.
Defined.

(** C10.  The record [downloadImages] appends is labelled "Photo Slide"
    on success and "Photo" on failure; the failure record replaces a falsy
    id or author by "Unknown". *)
Theorem downloadImages_record_labels env url id imgs ct au s :
  match downloadImages env url id imgs ct au s with
  | (ROk _, s') =>
      exists n, ledger s' = ledger s ++
        [mkStat "Photo Slide" id au Success (string_of_nat n ++ " Images")]
  | (RErr m, s') =>
      ledger s' = ledger s ++
        [mkStat "Photo" (js_or id (JStr "Unknown")) (js_or au (JStr "Unknown")) Failed m]
  end.
Proof. apply downloadImages_ledger. Qed.


(** C2 (code_bug).  A photo payload of type "image" with an empty [images]
    array passes the check [!photoData.images] (an empty array is truthy):
    the run ends in success and records a "Photo Slide" success with
    "0 Images", writing no file. *)
Theorem photo_empty_images_recorded_as_success :
  let s' := processUrl (Inputs.env_of (RErr "unused") None None
                          (ROk (Inputs.api_ok (Inputs.photo_result []))) [] 0)
              Inputs.photo_url Inputs.st0 in
  ledger s' = [mkStat "Photo Slide" (JStr "7000") (JStr "ab") Success "0 Images"] /\
  files s' = [] /\
  netlog s' = [EvApi (api_request_url Inputs.photo_url)] /\
  last (spinner s') (SpinStart "") = SpinSucceed "Photo slide downloaded successfully!".
Proof. repeat split; reflexivity. Qed.

(** C3 (code_bug).  A backup-API answer of type "video" whose
    [video.playAddr] is the empty array passes the check
    [!apiData.video?.playAddr]; [videoUrl] becomes [playAddr[0]], that is
    [undefined], and a GET of [undefined] is issued.  With a fetcher that
    rejects it, the failure is recorded by [downloadVideo] as a retrieval
    failure. *)
Theorem api_empty_playAddr_fetches_undefined :
  let s' := processUrl (Inputs.env_of (RErr "unused") None None
                          (ROk (Inputs.api_ok (Inputs.video_result [] (JStr "ab")))) [] 0)
              Inputs.video_url Inputs.st0 in
  netlog s' = [EvHtml Inputs.video_url; EvApi (api_request_url Inputs.video_url);
               EvGet JUndef Inputs.video_url] /\
  ledger s' = [mkStat "Video" (JStr "123") (JStr "ab") Failed "Invalid URL"].
Proof. split; reflexivity. Qed.

#[local] Arguments api_request_url : simpl never.
#[local] Arguments formatUploadDate : simpl never.
#[local] Arguments js_to_string : simpl never.

(** C6.  Photo set of three image URLs whose second GET fails: the images
    are fetched one after another, the third is never requested, exactly
    the file of index 0 (suffix [_1.jpg]) is written and stays, one
    "Photo" failure is recorded, and [processUrl] returns normally with the
    failure reported on the spinner. *)
Theorem photo_second_fetch_failure env url s pf au u1 u2 u3 b1 m :
  validateURL url = true -> str_includes "/photo/" url = true ->
  (forall l, env_api env l (api_request_url url) =
             ROk (JObj [("status", JStr "success"); ("result", JObj pf)])) ->
  assoc "type" pf = JStr "image" ->
  assoc "images" pf = JArr [JStr u1; JStr u2; JStr u3] ->
  assoc "author" pf = JObj au ->
  (forall l r, env_get env l (JStr u1) r = ROk b1) ->
  (forall l r, env_get env l (JStr u2) r = RErr m) ->
  (forall n b, env_write env IMAGE_DIR n b = ROk tt) ->
  let s' := processUrl env url s in
  files s' = files s ++
    [(IMAGE_DIR, (js_to_string (assoc "username" au) ++ "_img_"
                  ++ formatUploadDate (env_tz env) (assoc "createTime" pf) ++ "_"
                  ++ js_to_string (assoc "id" pf) ++ "_1.jpg")%string, b1)] /\
  ledger s' = ledger s ++
    [mkStat "Photo" (js_or (assoc "id" pf) (JStr "Unknown"))
            (js_or (assoc "username" au) (JStr "Unknown")) Failed m] /\
  netlog s' = netlog s ++
    [EvApi (api_request_url url); EvGet (JStr u1) url; EvGet (JStr u2) url] /\
  last (spinner s') (SpinStart "") = SpinFail ("Error: " ++ m).
Proof.
  intros Hv Hp Hapi Hty Himg Hau Hu1 Hu2 Hw s'; subst s'.
  rewrite processUrl_eq; unfold process_body; rewrite Hv, Hp.
  unfold resolve_photo, getMediaInfoFromAPI, downloadImages.
  unfold try_catch, bind, api_get, lift, ret, throw, spin_ev, modify, downloadFile,
    writeFileSync, ensureDirectoryExists, push_stat, log_event.
  simpl.
  rewrite Hapi; simpl.
  rewrite Hty; simpl.
  rewrite Himg; simpl.
  rewrite Hau; simpl.
  destruct (existsb _ (dirs s)); simpl;
  unfold image_step, bind, lift, ret, spin_ev, modify, downloadFile, writeFileSync,
    log_event; simpl;
  rewrite Hu1; simpl; rewrite Hw; simpl; rewrite Hu2; simpl;
  rewrite ?last_last; repeat split; rewrite <- ?app_assoc; reflexivity.
Qed.

Lemma photo_second_fetch_failure_witness :
  let s' := processUrl Inputs.photo3_env Inputs.photo_url Inputs.st0 in
  files s' = [(IMAGE_DIR, "ab_img_05032024_7000_1.jpg", JStr "bytes of u1")] /\
  ledger s' = [mkStat "Photo" (JStr "7000") (JStr "ab") Failed
                      "Request failed with status code 404"] /\
  netlog s' = [EvApi (api_request_url Inputs.photo_url);
               EvGet (JStr "u1") Inputs.photo_url; EvGet (JStr "u2") Inputs.photo_url] /\
  last (spinner s') (SpinStart "") = SpinFail "Error: Request failed with status code 404".
Proof.
  exact (photo_second_fetch_failure Inputs.photo3_env Inputs.photo_url Inputs.st0
           (Inputs.photo_fields [JStr "u1"; JStr "u2"; JStr "u3"]) [("username", JStr "ab")]
           "u1" "u2" "u3" (JStr "bytes of u1") "Request failed with status code 404"
           eq_refl eq_refl (fun _ => eq_refl) eq_refl eq_refl eq_refl
           (fun _ _ => eq_refl) (fun _ _ => eq_refl) (fun _ _ => eq_refl)).
Defined.

(** C5 (amended).  [downloadVideo] writes exactly one file, under the video
    directory, named [{authorId}_vid_{DDMMYYYY}_{itemId}.mp4], where the
    date is the calendar date of [createTime] in the host's local time
    zone (the [Date] getters [getDate], [getMonth], [getFullYear]).  When
    that local date is 5 March 2024, author "ab" and id "123" give
    "ab_vid_05032024_123.mp4". *)
Theorem downloadVideo_names_file_by_local_date env vd url s b :
  env_get env (netlog s) (videoUrl vd) url = ROk b ->
  env_write env VIDEO_DIR (video_file_name env vd) b = ROk tt ->
  files (snd (downloadVideo env vd url s)) =
    files s ++ [(VIDEO_DIR, video_file_name env vd, b)] /\
  (forall n, createTime vd = JNum n -> (Z.abs (n * 1000) <= max_time_value)%Z ->
     let '(y, mo, d) :=
       civil_from_days ((n * 1000 + env_tz env (n * 1000)) / ms_per_day)%Z in
     video_file_name env vd =
       (js_to_string (authorUniqueId vd) ++ "_vid_" ++ pad2 (string_of_Z d)
        ++ pad2 (string_of_Z mo) ++ string_of_Z y ++ "_"
        ++ js_to_string (videoId vd) ++ ".mp4")%string) /\
  (forall n, authorUniqueId vd = JStr "ab" -> videoId vd = JStr "123" ->
     createTime vd = JNum n -> (Z.abs (n * 1000) <= max_time_value)%Z ->
     (1709596800000 <= n * 1000 + env_tz env (n * 1000) < 1709683200000)%Z ->
     video_file_name env vd = "ab_vid_05032024_123.mp4").
Proof.
  intros Hget Hw.
  assert (Hname : forall n, createTime vd = JNum n ->
            (Z.abs (n * 1000) <= max_time_value)%Z ->
            formatUploadDate (env_tz env) (createTime vd) =
            let '(y, mo, d) :=
              civil_from_days ((n * 1000 + env_tz env (n * 1000)) / ms_per_day)%Z in
            (pad2 (string_of_Z d) ++ pad2 (string_of_Z mo) ++ string_of_Z y)%string).
  { intros n Hct Hb; rewrite Hct; unfold formatUploadDate; simpl js_to_number.
    cbv beta iota zeta; rewrite (proj2 (Z.ltb_ge _ _) Hb); reflexivity. }
  split; [|split].
  - unfold downloadVideo, try_catch, bind, downloadFile; rewrite Hget.
    unfold ensureDirectoryExists, modify, log_event; simpl.
    destruct (existsb _ (dirs s)); unfold writeFileSync; simpl; rewrite Hw; reflexivity.
  - intros n Hct Hb; unfold video_file_name; rewrite (Hname n Hct Hb).
    destruct (civil_from_days _) as [[y mo] d].
    rewrite !string_append_assoc; reflexivity.
  - intros n Ha Hi Hct Hb Hr; unfold video_file_name; rewrite (Hname n Hct Hb).
    replace ((n * 1000 + env_tz env (n * 1000)) / ms_per_day)%Z with 19787%Z.
    + rewrite Ha, Hi; reflexivity.
    + apply (Z.div_unique _ _ _ (n * 1000 + env_tz env (n * 1000) - 19787 * ms_per_day));
        unfold ms_per_day; lia.
Qed.

Lemma downloadVideo_names_file_by_local_date_witness :
  let vd := mkVideoData (JStr "ab") (JStr "123") (JNum 1709640000)
                        (JStr "https://v/1.mp4") JUndef in
  let env := Inputs.env_of (RErr "unused") None None (RErr "unused") [] 0 in
  files (snd (downloadVideo env vd Inputs.video_url Inputs.st0)) =
    [(VIDEO_DIR, video_file_name env vd, JStr "bytes of https://v/1.mp4")] /\
  video_file_name env vd = "ab_vid_05032024_123.mp4".
Proof.
  intros vd env.
  destruct (downloadVideo_names_file_by_local_date env vd Inputs.video_url Inputs.st0
              (JStr "bytes of https://v/1.mp4") eq_refl eq_refl) as [H1 [_ H3]].
  split; [exact H1|].
  apply (H3 1709640000%Z); try reflexivity.
  - apply Z.leb_le; reflexivity.
  - split; [apply Z.leb_le | apply Z.ltb_lt]; reflexivity.
Defined.

(** C5 (counterexample).  1709596800 is 2024-03-05T00:00:00Z, yet on a host
    five hours behind UTC the video written for author "ab", id "123" and
    that [createTime] is named with 4 March. *)
Lemma video_file_date_not_utc_counterexample :
  civil_from_days (1709596800 / 86400) = (2024, 3, 5)%Z /\
  files (processUrl (Inputs.env_of (RErr "unused") None None
                       (ROk (Inputs.api_ok (Inputs.video_result [JStr "v"] (JStr "ab"))))
                       [] (-18000000))
           Inputs.video_url Inputs.st0)
  = [(VIDEO_DIR, "ab_vid_04032024_123.mp4", JStr "bytes of v")].
Proof. split; reflexivity. Qed.












(** * Further properties of the module *)

(** ** Strings *)

Section Strings.

Open Scope string_scope.

Lemma prefix_app (p r : string) : String.prefix p (p ++ r) = true.
Proof.
  induction p as [|c p IH]; simpl; [destruct r; reflexivity|].
  destruct (ascii_dec c c); [exact IH|congruence].
Qed.

Lemma prefix_inv (p x : string) : String.prefix p x = true -> exists y, x = p ++ y.
Proof.
  revert x; induction p as [|c p IH]; intros x H; [exists x; reflexivity|].
  destruct x as [|c' x]; simpl in H; [discriminate|].
  destruct (ascii_dec c c'); [subst c'|discriminate].
  destruct (IH x H) as [y ->]; exists y; reflexivity.
Qed.

Lemma substring_0_full (r : string) (m : nat) :
  String.length r <= m -> String.substring 0 m r = r.
Proof.
  revert m; induction r as [|c r IH]; intros m H; destruct m; simpl in *; try lia; auto.
  rewrite IH by lia; reflexivity.
Qed.

Lemma str_length_app (p r : string) :
  String.length (p ++ r) = String.length p + String.length r.
Proof. induction p; simpl; auto. Qed.

Lemma substring_app (p r : string) :
  String.substring (String.length p) (String.length (p ++ r)) (p ++ r) = r.
Proof.
  assert (G : forall m, String.length r <= m ->
              String.substring (String.length p) m (p ++ r) = r).
  { induction p as [|c p IH]; intros m Hm; simpl.
    - apply substring_0_full; exact Hm.
    - destruct m; apply IH; exact Hm. }
  apply G; rewrite str_length_app; lia.
Qed.

Lemma prefix_then_iff (p x : string) (n : nat) (f : string -> bool) :
  n = String.length p ->
  (String.prefix p x && f (String.substring n (String.length x) x) = true <->
   exists y, x = p ++ y /\ f y = true).
Proof.
  intros ->; split.
  - intro H; apply andb_prop in H as [H1 H2].
    destruct (prefix_inv p x H1) as [y ->]; rewrite substring_app in H2; eauto.
  - intros [y [-> Hy]]; rewrite prefix_app, substring_app, Hy; reflexivity.
Qed.

Lemma host_tail_matches_iff (x : string) :
  host_tail_matches x = true <->
  exists r, x = "tiktok.com" ++ r /\ no_line_terminator r = true.
Proof. unfold host_tail_matches; apply prefix_then_iff; reflexivity. Qed.

Lemma after_scheme_matches_iff (x : string) :
  after_scheme_matches x = true <->
  exists sub r, In sub [""; "www."; "vm."; "vt."] /\ no_line_terminator r = true /\
                x = sub ++ "tiktok.com" ++ r.
Proof.
  unfold after_scheme_matches; cbn [existsb]; rewrite !orb_false_r; split.
  - intro H; repeat rewrite orb_true_iff in H.
    destruct H as [[H|[H|H]]|H];
      [ apply (prefix_then_iff "www." x 4 host_tail_matches eq_refl) in H
      | apply (prefix_then_iff "vm." x 3 host_tail_matches eq_refl) in H
      | apply (prefix_then_iff "vt." x 3 host_tail_matches eq_refl) in H
      | ].
    1-3: destruct H as [y [-> Hy]]; apply host_tail_matches_iff in Hy;
         destruct Hy as [r [-> Hr]].
    + exists "www.", r; simpl; auto 10.
    + exists "vm.", r; simpl; auto 10.
    + exists "vt.", r; simpl; auto 10.
    + apply host_tail_matches_iff in H; destruct H as [r [-> Hr]].
      exists "", r; simpl; auto.
  - intros [sub [r [Hin [Hr ->]]]].
    assert (Ht : host_tail_matches ("tiktok.com" ++ r) = true)
      by (apply host_tail_matches_iff; eauto).
    simpl in Hin; destruct Hin as [<-|[<-|[<-|[<-|[]]]]].
    + apply orb_true_iff; right; exact Ht.
    + apply orb_true_iff; left; apply orb_true_iff; left.
      apply (prefix_then_iff "www." _ 4 host_tail_matches eq_refl); eauto.
    + apply orb_true_iff; left; apply orb_true_iff; right; apply orb_true_iff; left.
      apply (prefix_then_iff "vm." _ 3 host_tail_matches eq_refl); eauto.
    + apply orb_true_iff; left; apply orb_true_iff; right; apply orb_true_iff; right.
      apply (prefix_then_iff "vt." _ 3 host_tail_matches eq_refl); eauto.
Qed.

(** [validateURL] accepts exactly the strings made of "http://" or
    "https://", then nothing, "www.", "vm." or "vt.", then "tiktok.com",
    then any characters but line terminators: the host is not delimited,
    so "https://tiktok.com.example.net/" is accepted, and the scheme and
    host are case-sensitive. *)
Theorem validateURL_iff (u : string) :
  validateURL u = true <->
  exists sch sub r, In sch ["https://"; "http://"] /\ In sub [""; "www."; "vm."; "vt."] /\
                    no_line_terminator r = true /\ u = sch ++ sub ++ "tiktok.com" ++ r.
Proof.
  unfold validateURL, tiktok_url_regex_test; split.
  - destruct (String.eqb u "") eqn:E; [discriminate|].
    intro H; apply orb_true_iff in H; destruct H as [H|H];
      [ apply (prefix_then_iff "https://" u 8 after_scheme_matches eq_refl) in H
      | apply (prefix_then_iff "http://" u 7 after_scheme_matches eq_refl) in H ];
      destruct H as [y [-> Hy]]; apply after_scheme_matches_iff in Hy;
      destruct Hy as [sub [r [Hin [Hr ->]]]].
    + exists "https://", sub, r; simpl; auto.
    + exists "http://", sub, r; simpl; auto.
  - intros [sch [sub [r [Hs [Hin [Hr ->]]]]]].
    assert (Ha : after_scheme_matches (sub ++ "tiktok.com" ++ r) = true)
      by (apply after_scheme_matches_iff; eauto).
    simpl in Hs; destruct Hs as [<-|[<-|[]]]; simpl String.eqb; cbv iota.
    + apply orb_true_iff; left.
      apply (prefix_then_iff "https://" _ 8 after_scheme_matches eq_refl); eauto.
    + apply orb_true_iff; right.
      apply (prefix_then_iff "http://" _ 7 after_scheme_matches eq_refl); eauto.
Qed.

Lemma hex_digit_inj (a b : nat) : a < 16 -> b < 16 -> hex_digit a = hex_digit b -> a = b.
Proof.
  assert (C : forallb (fun a => forallb (fun b =>
                implb (Ascii.eqb (hex_digit a) (hex_digit b)) (Nat.eqb a b)) (seq 0 16))
                (seq 0 16) = true) by reflexivity.
  intros Ha Hb E; rewrite forallb_forall in C.
  assert (Ia : In a (seq 0 16)) by (apply in_seq; lia).
  assert (Ib : In b (seq 0 16)) by (apply in_seq; lia).
  specialize (C a Ia); rewrite forallb_forall in C; specialize (C b Ib).
  rewrite E, Ascii.eqb_refl in C; simpl in C; apply Nat.eqb_eq; exact C.
Qed.

(** [encodeURIComponent] is injective, and its output contains nothing
    but unreserved characters and "%": no "&", "#", "=", "/" or "?" of the
    user's URL reaches the API request, which thus always carries the URL
    as the single value of its [url] parameter. *)
Theorem encodeURIComponent_injective_and_safe (s1 s2 : string) :
  (encodeURIComponent s1 = encodeURIComponent s2 -> s1 = s2) /\
  (forall c, In c (list_ascii_of_string (encodeURIComponent s1)) ->
             uri_unreserved c = true \/ c = "%"%char).
Proof.
  split.
  - revert s2; induction s1 as [|c1 r1 IH]; intros [|c2 r2] H;
      cbn [encodeURIComponent] in H; cbv zeta in H.
    + reflexivity.
    + destruct (uri_unreserved c2); discriminate.
    + destruct (uri_unreserved c1); discriminate.
    + pose proof (nat_ascii_bounded c1); pose proof (nat_ascii_bounded c2).
      remember (nat_of_ascii c1 / 16) as q1 eqn:Q1; remember (nat_of_ascii c1 mod 16) as m1 eqn:M1.
      remember (nat_of_ascii c2 / 16) as q2 eqn:Q2; remember (nat_of_ascii c2 mod 16) as m2 eqn:M2.
      destruct (uri_unreserved c1) eqn:U1, (uri_unreserved c2) eqn:U2;
        injection H; clear H.
      * intros E ->; rewrite (IH _ E); reflexivity.
      * intros _ E0; rewrite E0 in U1; discriminate.
      * intros _ E0; rewrite <- E0 in U2; discriminate.
      * intros E E2 E1.
        apply hex_digit_inj in E1; [|subst; apply Nat.Div0.div_lt_upper_bound; lia
                                   |subst; apply Nat.Div0.div_lt_upper_bound; lia].
        apply hex_digit_inj in E2; [|subst; apply Nat.mod_upper_bound; lia
                                   |subst; apply Nat.mod_upper_bound; lia].
        rewrite (IH _ E).
        assert (N : nat_of_ascii c1 = nat_of_ascii c2).
        { rewrite (Nat.div_mod_eq (nat_of_ascii c1) 16), (Nat.div_mod_eq (nat_of_ascii c2) 16).
          rewrite <- Q1, <- Q2, <- M1, <- M2, E1, E2; reflexivity. }
        rewrite <- (ascii_nat_embedding c1), <- (ascii_nat_embedding c2), N; reflexivity.
  - induction s1 as [|c r IH]; cbn [encodeURIComponent]; cbv zeta; [simpl; tauto|].
    intros c' H; destruct (uri_unreserved c) eqn:U; cbn [list_ascii_of_string In] in H.
    + destruct H as [<-|H]; auto.
    + destruct H as [<-|[<-|[<-|H]]]; auto.
      * left; unfold hex_digit.
        pose proof (nat_ascii_bounded c).
        assert (L : nat_of_ascii c / 16 < 16) by (apply Nat.Div0.div_lt_upper_bound; lia).
        revert L; generalize (nat_of_ascii c / 16) as k; intros k L.
        do 16 (destruct k as [|k]; [reflexivity|]); lia.
      * left; unfold hex_digit.
        assert (L : nat_of_ascii c mod 16 < 16) by (apply Nat.mod_upper_bound; lia).
        revert L; generalize (nat_of_ascii c mod 16) as k; intros k L.
        do 16 (destruct k as [|k]; [reflexivity|]); lia.
Qed.

End Strings.

(** ** [processUrl] *)

Lemma last_app_cons {A} (l r : list A) (x d : A) : last (l ++ x :: r) d = last (x :: r) d.
Proof.
  induction l as [|a l IH]; [reflexivity|].
  rewrite <- app_comm_cons; simpl; rewrite IH; destruct l; reflexivity.
Qed.

(** On a URL [validateURL] refuses, [processUrl] sends no request, writes
    nothing and records nothing: the spinner starts and fails with
    "Invalid TikTok URL format!". *)
Theorem processUrl_invalid_url_no_effect env url s :
  validateURL url = false ->
  processUrl env url s =
  mkSt (ledger s) (files s) (dirs s) (netlog s)
       (spinner s ++ [SpinStart "Analyzing URL..."; SpinFail "Invalid TikTok URL format!"]).
Proof.
  intro H; rewrite processUrl_eq; unfold process_body; rewrite H.
  cbn; rewrite <- app_assoc; reflexivity.
Qed.

Lemma processUrl_invalid_url_no_effect_witness :
  validateURL "https://www.youtube.com/watch?v=1" = false /\
  processUrl Inputs.photo3_env "https://www.youtube.com/watch?v=1" Inputs.st0 =
  mkSt [] [] [] [] [SpinStart "Analyzing URL..."; SpinFail "Invalid TikTok URL format!"].
Proof.
  split; [reflexivity|].
  apply (processUrl_invalid_url_no_effect Inputs.photo3_env _ Inputs.st0); reflexivity.
Defined.

(** On a photo URL the first request is the API query and the page itself
    is never fetched. *)
Theorem processUrl_photo_never_fetches_page env url s :
  validateURL url = true -> str_includes "/photo/" url = true ->
  exists r, netlog (processUrl env url s) = netlog s ++ EvApi (api_request_url url) :: r /\
            forall u, ~ In (EvHtml u) r.
Proof.
  intros Hv Hp; destruct (processUrl_photo_log env url s Hv Hp) as [r [E F]].
  exists r; split; [exact E|]; intros u Hin.
  rewrite Forall_forall in F; exact (F _ Hin).
Qed.

Lemma processUrl_photo_never_fetches_page_witness :
  validateURL Inputs.photo_url = true /\ str_includes "/photo/" Inputs.photo_url = true /\
  exists r, netlog (processUrl Inputs.photo3_env Inputs.photo_url Inputs.st0) =
            [] ++ EvApi (api_request_url Inputs.photo_url) :: r /\
            forall u, ~ In (EvHtml u) r.
Proof.
  split; [reflexivity|split; [reflexivity|]].
  apply (processUrl_photo_never_fetches_page Inputs.photo3_env Inputs.photo_url Inputs.st0);
    reflexivity.
Defined.

(** When the API answers on a photo URL with a [status] other than
    "success", [processUrl] records nothing and writes nothing; the spinner
    fails with "Error: API Error: " and the status as [String] renders it
    ("undefined" when the answer has no [status]). *)
Theorem processUrl_photo_api_status_error env url s data st :
  validateURL url = true -> str_includes "/photo/" url = true ->
  env_api env (netlog s) (api_request_url url) = ROk data ->
  get data "status" = ROk st -> neq_str st "success" = true ->
  let s' := processUrl env url s in
  ledger s' = ledger s /\ files s' = files s /\
  netlog s' = netlog s ++ [EvApi (api_request_url url)] /\
  last (spinner s') (SpinStart "") = SpinFail ("Error: API Error: " ++ js_to_string st)%string.
Proof.
  intros Hv Hp Ha Hs Hn s'; subst s'.
  rewrite processUrl_eq; unfold process_body; rewrite Hv, Hp.
  unfold resolve_photo, getMediaInfoFromAPI.
  unfold try_catch, bind, api_get, lift, ret, throw, spin_ev, modify, log_event.
  simpl; rewrite Ha; simpl; rewrite Hs; simpl; rewrite Hn; simpl.
  rewrite <- !app_assoc; repeat split; simpl; rewrite ?last_app_cons; reflexivity.
Qed.

Lemma processUrl_photo_api_status_error_witness :
  let env := Inputs.env_of (RErr "unused") None None
                           (ROk (JObj [("status", JStr "error")])) [] 0 in
  last (spinner (processUrl env Inputs.photo_url Inputs.st0)) (SpinStart "") =
  SpinFail "Error: API Error: error".
Proof.
  intro env.
  exact (proj2 (proj2 (proj2 (processUrl_photo_api_status_error env Inputs.photo_url
           Inputs.st0 (JObj [("status", JStr "error")]) (JStr "error")
           eq_refl eq_refl eq_refl eq_refl eq_refl)))).
Defined.

(** ** Array indices *)

Lemma digits_of_nat_app f n acc :
  digits_of_nat f n acc = (digits_of_nat f n "" ++ acc)%string.
Proof.
  revert n acc; induction f as [|f IH]; intros n acc; [reflexivity|].
  simpl; destruct (Nat.ltb n 10); [reflexivity|].
  rewrite (IH _ (String _ acc)), (IH _ (String _ "")), string_append_assoc; reflexivity.
Qed.

Lemma parse_digits_app s1 s2 a :
  parse_digits (s1 ++ s2)%string a =
  match parse_digits s1 a with Some v => parse_digits s2 v | None => None end.
Proof.
  revert a; induction s1 as [|c s1 IH]; intro a; [reflexivity|].
  simpl; destruct (_ && _); [apply IH|reflexivity].
Qed.

Lemma nat_of_digit k : k < 10 -> nat_of_ascii (ascii_of_nat (48 + k)) = 48 + k.
Proof. intro; apply nat_ascii_embedding; lia. Qed.

Lemma parse_digits_of_nat f n a :
  n < f -> exists L, parse_digits (digits_of_nat f n "") a =
                     Some (a * 10 ^ Z.of_nat L + Z.of_nat n)%Z.
Proof.
  revert n a; induction f as [|f IH]; intros n a Hn; [lia|].
  assert (Hm : n mod 10 < 10) by (apply Nat.mod_upper_bound; lia).
  cbn [digits_of_nat]; cbv zeta.
  remember (ascii_of_nat (48 + n mod 10)) as d eqn:Ed.
  assert (Hd : nat_of_ascii d = 48 + n mod 10) by (subst d; apply nat_of_digit, Hm).
  assert (Pd : forall v, parse_digits (String d "") v = Some (v * 10 + Z.of_nat (n mod 10))%Z).
  { intro v; cbn [parse_digits]; rewrite Hd.
    replace (Nat.leb 48 (48 + n mod 10) && Nat.leb (48 + n mod 10) 57) with true
      by (symmetry; apply andb_true_iff; split; apply Nat.leb_le; lia).
    do 2 f_equal; lia. }
  destruct (Nat.ltb n 10) eqn:Lt.
  - apply Nat.ltb_lt in Lt; exists 1; rewrite Pd.
    rewrite Nat.mod_small by exact Lt; f_equal; lia.
  - apply Nat.ltb_ge in Lt.
    rewrite digits_of_nat_app, parse_digits_app.
    destruct (IH (n / 10) a) as [L E]; [apply Nat.Div0.div_lt_upper_bound; lia|].
    rewrite E, Pd; exists (S L); f_equal.
    pose proof (Nat.div_mod_eq n 10) as D.
    rewrite Nat2Z.inj_succ, Z.pow_succ_r by lia.
    rewrite D at 3; rewrite Nat2Z.inj_add, Nat2Z.inj_mul; lia.
Qed.

Lemma digits_of_nat_head f n acc :
  1 <= n -> n < f ->
  exists d r, digits_of_nat f n acc = String d r /\
              49 <= nat_of_ascii d <= 57.
Proof.
  revert n acc; induction f as [|f IH]; intros n acc H1 Hn; [lia|].
  assert (Hm : n mod 10 < 10) by (apply Nat.mod_upper_bound; lia).
  cbn [digits_of_nat]; cbv zeta.
  remember (ascii_of_nat (48 + n mod 10)) as d eqn:Ed.
  assert (Hd : nat_of_ascii d = 48 + n mod 10) by (subst d; apply nat_of_digit, Hm).
  destruct (Nat.ltb n 10) eqn:Lt.
  - apply Nat.ltb_lt in Lt; do 2 eexists; split; [reflexivity|].
    rewrite Hd, Nat.mod_small by exact Lt; lia.
  - apply Nat.ltb_ge in Lt; apply IH.
    + pose proof (Nat.Div0.div_le_mono 10 n 10 Lt) as Q; rewrite Nat.div_same in Q; lia.
    + apply Nat.Div0.div_lt_upper_bound; lia.
Qed.

Lemma array_index_string_of_nat n : array_index (string_of_nat n) = Some n.
Proof.
  destruct n as [|n]; [reflexivity|].
  destruct (digits_of_nat_head (S (S n)) (S n) "" ltac:(lia) ltac:(lia)) as [d [r [E B]]].
  destruct (parse_digits_of_nat (S (S n)) (S n) 0 ltac:(lia)) as [L P].
  unfold string_of_nat in *; rewrite E in P |- *.
  assert (G : array_index (String d r) = option_map Z.to_nat (parse_digits (String d r) 0)).
  { destruct d as [[] [] [] [] [] [] [] []]; try reflexivity; cbv in B; lia. }
  rewrite G, P; simpl; f_equal; lia.
Qed.

Lemma get_array_string_of_nat (l : list jv) i :
  get (JArr l) (string_of_nat i) = ROk (nth i l JUndef).
Proof.
  unfold get.
  replace (String.eqb (string_of_nat i) "length") with false.
  - rewrite array_index_string_of_nat; reflexivity.
  - symmetry; destruct i as [|i]; [reflexivity|].
    destruct (digits_of_nat_head (S (S i)) (S i) "" ltac:(lia) ltac:(lia)) as [d [r [E B]]].
    unfold string_of_nat; rewrite E; simpl.
    destruct (Ascii.eqb d "l") eqn:Q; [|reflexivity].
    apply Ascii.eqb_eq in Q; subst d; cbv in B; lia.
Qed.

(** ** [downloadImages] over any number of images *)

Lemma nth_map_JStr (L : list string) i :
  i < length L -> nth i (map JStr L) JUndef = JStr (nth i L "").
Proof.
  intro H; rewrite (nth_indep _ JUndef (JStr "")) by (rewrite length_map; exact H).
  apply map_nth.
Qed.

Lemma image_step_ok env url id (L : list string) ts au len i c s d :
  i < length L ->
  env_get env (netlog s) (JStr (nth i L "")) url = ROk d ->
  (forall n b, env_write env IMAGE_DIR n b = ROk tt) ->
  image_step env url id (JArr (map JStr L)) ts au len i c s =
  (ROk (S c),
   mkSt (ledger s) (files s ++ [(IMAGE_DIR, image_file_name env id ts au (S i), d)]) (dirs s)
        (netlog s ++ [EvGet (JStr (nth i L "")) url])
        (spinner s ++ [SpinText ("Downloading Image " ++ string_of_nat (S i) ++ "/"
                                 ++ js_to_string len ++ "...")%string])).
Proof.
  intros Hi Hg Hw.
  unfold image_step, bind, spin_ev, modify, lift, downloadFile, writeFileSync, ret, log_event.
  rewrite get_array_string_of_nat, nth_map_JStr by exact Hi.
  cbn [ledger files dirs netlog spinner]; rewrite Hg, Hw; reflexivity.
Qed.

Lemma image_step_fail env url id (L : list string) ts au len i c s m :
  i < length L ->
  env_get env (netlog s) (JStr (nth i L "")) url = RErr m ->
  image_step env url id (JArr (map JStr L)) ts au len i c s =
  (RErr m,
   mkSt (ledger s) (files s) (dirs s)
        (netlog s ++ [EvGet (JStr (nth i L "")) url])
        (spinner s ++ [SpinText ("Downloading Image " ++ string_of_nat (S i) ++ "/"
                                 ++ js_to_string len ++ "...")%string])).
Proof.
  intros Hi Hg.
  unfold image_step, bind, spin_ev, modify, lift, downloadFile, log_event.
  rewrite get_array_string_of_nat, nth_map_JStr by exact Hi.
  cbn [ledger files dirs netlog spinner]; rewrite Hg; reflexivity.
Qed.

Lemma image_loop_ok env url id (L : list string) ts au len data :
  (forall n b, env_write env IMAGE_DIR n b = ROk tt) ->
  forall k i c s,
  i + k <= length L ->
  (forall l j, i <= j < i + k -> env_get env l (JStr (nth j L "")) url = ROk (data j)) ->
  image_loop env url id (JArr (map JStr L)) ts au len i k c s =
  (ROk (c + k),
   mkSt (ledger s)
        (files s ++ map (fun j => (IMAGE_DIR, image_file_name env id ts au (S j), data j)) (seq i k))
        (dirs s)
        (netlog s ++ map (fun j => EvGet (JStr (nth j L "")) url) (seq i k))
        (spinner s ++ map (fun j => SpinText ("Downloading Image " ++ string_of_nat (S j) ++ "/"
                                 ++ js_to_string len ++ "...")%string) (seq i k))).
Proof.
  intros Hw k; induction k as [|k IH]; intros i c s Hk Hg.
  - cbn; rewrite !app_nil_r, Nat.add_0_r; destruct s; reflexivity.
  - cbn [image_loop]; unfold bind at 1.
    rewrite (image_step_ok env url id L ts au len i c s (data i))
      by first [exact Hw | apply Hg; lia | lia].
    rewrite IH by first [lia | intros; apply Hg; lia].
    cbn [ledger files dirs netlog spinner seq map].
    rewrite <- !app_assoc; do 2 f_equal; lia.
Qed.

Lemma image_loop_fail env url id (L : list string) ts au len data m :
  (forall n b, env_write env IMAGE_DIR n b = ROk tt) ->
  forall k k' i c s,
  k < k' -> i + k < length L ->
  (forall l j, i <= j < i + k -> env_get env l (JStr (nth j L "")) url = ROk (data j)) ->
  (forall l, env_get env l (JStr (nth (i + k) L "")) url = RErr m) ->
  image_loop env url id (JArr (map JStr L)) ts au len i k' c s =
  (RErr m,
   mkSt (ledger s)
        (files s ++ map (fun j => (IMAGE_DIR, image_file_name env id ts au (S j), data j)) (seq i k))
        (dirs s)
        (netlog s ++ map (fun j => EvGet (JStr (nth j L "")) url) (seq i (S k)))
        (spinner s ++ map (fun j => SpinText ("Downloading Image " ++ string_of_nat (S j) ++ "/"
                                 ++ js_to_string len ++ "...")%string) (seq i (S k)))).
Proof.
  intros Hw k; induction k as [|k IH]; intros k' i c s Hk Hi Hg Hf;
    (destruct k' as [|k']; [lia|]); cbn [image_loop]; unfold bind at 1.
  - rewrite (image_step_fail env url id L ts au len i c s m)
      by first [lia | rewrite <- (Nat.add_0_r i); apply Hf].
    cbn; rewrite !app_nil_r; reflexivity.
  - rewrite (image_step_ok env url id L ts au len i c s (data i))
      by first [exact Hw | apply Hg; lia | lia].
    rewrite (IH k' (S i))
      by first [exact Hw | lia | intros; apply Hg; lia
               | intro l; replace (S i + k) with (i + S k) by lia; apply Hf].
    cbn [ledger files dirs netlog spinner seq map].
    rewrite <- !app_assoc; reflexivity.
Qed.

Lemma map_seq_nth {A B} (f : A -> B) (L : list A) d :
  map (fun j => f (nth j L d)) (seq 0 (length L)) = map f L.
Proof.
  induction L as [|a L IH]; [reflexivity|].
  cbn [length seq map nth]; f_equal.
  rewrite <- seq_shift, map_map; exact IH.
Qed.

Lemma ensureDirectoryExists_spec dir s :
  exists ds, ensureDirectoryExists dir s =
             (ROk tt, mkSt (ledger s) (files s) ds (netlog s) (spinner s)) /\
             In dir ds /\ (forall x, In x (dirs s) -> In x ds).
Proof.
  unfold ensureDirectoryExists, modify; destruct (existsb (String.eqb dir) (dirs s)) eqn:E.
  - exists (dirs s); destruct s; split; [reflexivity|split; [|auto]].
    apply existsb_exists in E as [x [Hx Q]]; apply String.eqb_eq in Q; subst; exact Hx.
  - exists (dirs s ++ [dir]); split; [reflexivity|split].
    + apply in_or_app; right; left; reflexivity.
    + intros; apply in_or_app; left; assumption.
Qed.

Lemma get_array_length (l : list jv) :
  get (JArr l) "length" = ROk (JNum (Z.of_nat (length l))).
Proof. reflexivity. Qed.

Lemma loop_count_nat n : loop_count (JNum (Z.of_nat n)) = n.
Proof. unfold loop_count; cbn; apply Nat2Z.id. Qed.

(** When every image GET succeeds and every write succeeds, [downloadImages]
    returns normally, writes the images in order as [<author>_img_<date>_<id>_<i>.jpg]
    with 1-based [i], issues one GET per URL in order, ensures the image
    directory and appends one "Photo Slide" success record counting all images. *)
Theorem downloadImages_saves_every_image env url id (L : list string) ts au data s :
  (forall l u, In u L -> env_get env l (JStr u) url = ROk (data u)) ->
  (forall n b, env_write env IMAGE_DIR n b = ROk tt) ->
  let r := downloadImages env url id (JArr (map JStr L)) ts au s in
  fst r = ROk tt /\
  ledger (snd r) = ledger s ++ [mkStat "Photo Slide" id au Success
                                       (string_of_nat (length L) ++ " Images")%string] /\
  files (snd r) = files s ++ map (fun j => (IMAGE_DIR, image_file_name env id ts au (S j),
                                            data (nth j L ""))) (seq 0 (length L)) /\
  netlog (snd r) = netlog s ++ map (fun u => EvGet (JStr u) url) L /\
  In IMAGE_DIR (dirs (snd r)).
Proof.
  intros Hg Hw; cbv zeta.
  destruct (ensureDirectoryExists_spec IMAGE_DIR s) as [ds [Ed [Hin _]]].
  unfold downloadImages, try_catch, bind, lift; rewrite Ed.
  rewrite get_array_length, length_map, loop_count_nat.
  rewrite (image_loop_ok env url id L ts au _ (fun j => data (nth j L "")) Hw)
    by (cbn [ledger]; first [lia | intros l j Hj; apply Hg, nth_In; lia]).
  cbn; rewrite (map_seq_nth (fun v => EvGet (JStr v) url) L ""); repeat split; assumption.
Qed.

Lemma downloadImages_saves_every_image_witness :
  let env := Inputs.env_of (RErr "unused") None None (RErr "unused") [] 0 in
  fst (downloadImages env "u" (JStr "7") (JArr (map JStr ["a"; "b"])) (JNum 0) (JStr "ab")
                      Inputs.st0) = ROk tt /\
  netlog (snd (downloadImages env "u" (JStr "7") (JArr (map JStr ["a"; "b"])) (JNum 0)
                              (JStr "ab") Inputs.st0)) =
    [EvGet (JStr "a") "u"; EvGet (JStr "b") "u"].
Proof.
  intro env.
  destruct (downloadImages_saves_every_image env "u" (JStr "7") ["a"; "b"] (JNum 0) (JStr "ab")
              (fun u => JStr ("bytes of " ++ u)) Inputs.st0
              (fun l u _ => eq_refl) (fun n b => eq_refl)) as [H1 [_ [_ [H4 _]]]].
  split; [exact H1|exact H4].
Defined.

(** When the GET of an image fails, the loop stops there: the images before it
    are written, no later image is requested, a "Photo" failure record with
    "Unknown" for a falsy id or author and the error's message is appended,
    and the error is rethrown. *)
Theorem downloadImages_stops_at_first_failure env url id (pre post : list string) u
    ts au data m s :
  (forall l v, In v pre -> env_get env l (JStr v) url = ROk (data v)) ->
  (forall l, env_get env l (JStr u) url = RErr m) ->
  (forall n b, env_write env IMAGE_DIR n b = ROk tt) ->
  let r := downloadImages env url id (JArr (map JStr (pre ++ u :: post))) ts au s in
  fst r = RErr m /\
  ledger (snd r) = ledger s ++ [mkStat "Photo" (js_or id (JStr "Unknown"))
                                       (js_or au (JStr "Unknown")) Failed m] /\
  files (snd r) = files s ++ map (fun j => (IMAGE_DIR, image_file_name env id ts au (S j),
                                            data (nth j pre ""))) (seq 0 (length pre)) /\
  netlog (snd r) = netlog s ++ map (fun v => EvGet (JStr v) url) (pre ++ [u]).
Proof.
  intros Hg Hf Hw; cbv zeta.
  set (L := pre ++ u :: post).
  assert (HL : length L = length pre + S (length post))
    by (unfold L; rewrite length_app; reflexivity).
  assert (Hpre : forall j, j < length pre -> nth j L "" = nth j pre "")
    by (intros; unfold L; apply app_nth1; assumption).
  assert (Hu : nth (0 + length pre) L "" = u)
    by (unfold L; rewrite app_nth2, Nat.sub_diag by lia; reflexivity).
  destruct (ensureDirectoryExists_spec IMAGE_DIR s) as [ds [Ed _]].
  unfold downloadImages, try_catch, bind, lift; rewrite Ed.
  rewrite get_array_length, length_map, loop_count_nat.
  rewrite (image_loop_fail env url id L ts au _ (fun j => data (nth j L "")) m Hw
             (length pre) (length L) 0)
    by first [lia | intros l j Hj; apply Hg; rewrite Hpre by lia; apply nth_In; lia
             | intro l; rewrite Hu; apply Hf].
  cbn -[seq]; repeat split.
  - f_equal; apply map_ext_in; intros j Hj; apply in_seq in Hj; rewrite Hpre by lia;
      reflexivity.
  - f_equal; rewrite <- (map_seq_nth (fun v => EvGet (JStr v) url) (pre ++ [u]) "").
    rewrite length_app; cbn [length]; rewrite Nat.add_1_r.
    apply map_ext_in; intros j Hj; apply in_seq in Hj.
    destruct (Nat.eq_dec j (length pre)) as [->|Hne].
    + rewrite app_nth2, Nat.sub_diag by lia; rewrite <- Hu; reflexivity.
    + rewrite app_nth1 by lia; rewrite Hpre by lia; reflexivity.
Qed.

Lemma downloadImages_stops_at_first_failure_witness :
  let env := Inputs.env_of (RErr "unused") None None (RErr "unused") ["b"] 0 in
  fst (downloadImages env "u" (JStr "7") (JArr (map JStr (["a"] ++ "b" :: ["c"]))) (JNum 0)
                      (JStr "ab") Inputs.st0) = RErr "Request failed with status code 404".
Proof.
  intro env.
  destruct (downloadImages_stops_at_first_failure env "u" (JStr "7") ["a"] ["c"] "b" (JNum 0)
              (JStr "ab") (fun u => JStr ("bytes of " ++ u)) "Request failed with status code 404"
              Inputs.st0) as [H1 _].
  - intros l v [<- | []]; reflexivity.
  - intro l; reflexivity.
  - intros n b; reflexivity.
  - exact H1.
Defined.

(** ** [downloadVideo] *)

(** When the GET and the write succeed, [downloadVideo] returns the file name,
    appends one "Video" success record "MP4 Saved", issues exactly one GET and
    ensures the video directory. *)
Theorem downloadVideo_success_record env vd url s b :
  env_get env (netlog s) (videoUrl vd) url = ROk b ->
  env_write env VIDEO_DIR (video_file_name env vd) b = ROk tt ->
  fst (downloadVideo env vd url s) = ROk (video_file_name env vd) /\
  ledger (snd (downloadVideo env vd url s)) =
    ledger s ++ [mkStat "Video" (videoId vd) (authorUniqueId vd) Success "MP4 Saved"] /\
  netlog (snd (downloadVideo env vd url s)) = netlog s ++ [EvGet (videoUrl vd) url] /\
  In VIDEO_DIR (dirs (snd (downloadVideo env vd url s))).
Proof.
  intros Hg Hw.
  destruct (ensureDirectoryExists_spec VIDEO_DIR (log_event (EvGet (videoUrl vd) url) s))
    as [ds [Ed [Hin _]]].
  unfold downloadVideo, try_catch, bind, downloadFile; rewrite Hg, Ed.
  unfold writeFileSync; cbn [ledger files dirs netlog spinner log_event]; rewrite Hw.
  cbn; repeat split; assumption.
Qed.

Lemma downloadVideo_success_record_witness :
  let vd := mkVideoData (JStr "ab") (JStr "123") (JNum 1709640000)
                        (JStr "https://v/1.mp4") JUndef in
  let env := Inputs.env_of (RErr "unused") None None (RErr "unused") [] 0 in
  fst (downloadVideo env vd Inputs.video_url Inputs.st0) = ROk (video_file_name env vd) /\
  ledger (snd (downloadVideo env vd Inputs.video_url Inputs.st0)) =
    [mkStat "Video" (JStr "123") (JStr "ab") Success "MP4 Saved"].
Proof.
  intros vd env.
  destruct (downloadVideo_success_record env vd Inputs.video_url Inputs.st0
              (JStr "bytes of https://v/1.mp4") eq_refl eq_refl) as [H1 [H2 _]].
  split; [exact H1|exact H2].
Defined.

(** When the GET of the video fails, nothing is written and no directory is
    created; a "Video" failure record with "Unknown" for a falsy id or author
    is appended and the error is rethrown. *)
Theorem downloadVideo_get_failure env vd url s m :
  env_get env (netlog s) (videoUrl vd) url = RErr m ->
  downloadVideo env vd url s =
  (RErr m, mkSt (ledger s ++ [mkStat "Video" (js_or (videoId vd) (JStr "Unknown"))
                                     (js_or (authorUniqueId vd) (JStr "Unknown"))
                                     Failed m])
                (files s) (dirs s) (netlog s ++ [EvGet (videoUrl vd) url]) (spinner s)).
Proof.
  intro Hg; unfold downloadVideo, try_catch, bind, downloadFile; rewrite Hg; reflexivity.
Qed.

Lemma downloadVideo_get_failure_witness :
  let vd := mkVideoData (JStr "ab") JUndef (JNum 1709640000) (JStr "https://v/1.mp4") JUndef in
  let env := Inputs.env_of (RErr "unused") None None (RErr "unused") ["https://v/1.mp4"] 0 in
  ledger (snd (downloadVideo env vd Inputs.video_url Inputs.st0)) =
    [mkStat "Video" (JStr "Unknown") (JStr "ab") Failed "Request failed with status code 404"].
Proof.
  intros vd env.
  rewrite (downloadVideo_get_failure env vd Inputs.video_url Inputs.st0
             "Request failed with status code 404" eq_refl).
  reflexivity.
Defined.



(** ** [extractVideoDataFromJson]: the choice of [videoUrl] *)

(** For a document whose [author] and [video] are objects, the video URL is:
    [playAddr] when [bitrateInfo] is empty or its first entry has no
    [PlayAddr]; [UrlList[0]] of the first entry when that is truthy and
    [playAddr] otherwise; and a first entry that is [undefined] or [null]
    makes the whole extraction yield nothing. *)
Theorem extract_video_url_choice env raw it au vf :
  env_json_parse env raw = Some (rehydration_doc (JObj it)) ->
  assoc "author" it = JObj au -> assoc "video" it = JObj vf ->
  let vd u := Some (mkVideoData (assoc "uniqueId" au) (assoc "id" it)
                                (assoc "createTime" it) u (assoc "desc" it)) in
  (assoc "bitrateInfo" vf = JArr [] ->
     extractVideoDataFromJson env raw = vd (assoc "playAddr" vf)) /\
  (forall x rest, assoc "bitrateInfo" vf = JArr (x :: rest) -> (x = JUndef \/ x = JNull) ->
     extractVideoDataFromJson env raw = None) /\
  (forall b0 rest, assoc "bitrateInfo" vf = JArr (JObj b0 :: rest) ->
     assoc "PlayAddr" b0 = JUndef ->
     extractVideoDataFromJson env raw = vd (assoc "playAddr" vf)) /\
  (forall b0 rest pa u0 ul, assoc "bitrateInfo" vf = JArr (JObj b0 :: rest) ->
     assoc "PlayAddr" b0 = JObj pa -> assoc "UrlList" pa = JArr (u0 :: ul) ->
     extractVideoDataFromJson env raw = vd (js_or u0 (assoc "playAddr" vf))).
Proof.
  intros Hp Ha Hv vd; unfold vd, extractVideoDataFromJson, extract_body; rewrite Hp.
  simpl; rewrite Ha, Hv; simpl.
  repeat split.
  - intro Hb; rewrite Hb; reflexivity.
  - intros x rest Hb [-> | ->]; rewrite Hb; reflexivity.
  - intros b0 rest Hb Hpa; rewrite Hb; simpl; rewrite Hpa; reflexivity.
  - intros b0 rest pa u0 ul Hb Hpa Hul; rewrite Hb; simpl; rewrite Hpa; simpl; rewrite Hul.
    simpl; unfold js_or; destruct (truthy u0); reflexivity.
Qed.

Lemma extract_video_url_choice_witness :
  let vf := [("playAddr", JStr "http://v/low");
             ("bitrateInfo", JArr [JObj [("PlayAddr", JObj [("UrlList", JArr [JStr "http://v/hq"])])]])] in
  let it := [("id", JStr "1"); ("author", JObj [("uniqueId", JStr "ab")]); ("video", JObj vf)] in
  let env := Inputs.env_of (RErr "unused") None (Some (rehydration_doc (JObj it)))
                           (RErr "unused") [] 0 in
  extractVideoDataFromJson env "{}" =
    Some (mkVideoData (JStr "ab") (JStr "1") JUndef (JStr "http://v/hq") JUndef).
Proof.
  intros vf it env.
  destruct (extract_video_url_choice env "{}" it [("uniqueId", JStr "ab")] vf
              eq_refl eq_refl eq_refl) as [_ [_ [_ H4]]].
  exact (H4 _ [] _ (JStr "http://v/hq") [] eq_refl eq_refl eq_refl).
Defined.

(** ** [formatUploadDate] *)

Lemma parse_digits_shift s a :
  parse_digits s a = option_map (fun v => a * 10 ^ Z.of_nat (String.length s) + v)%Z
                                (parse_digits s 0).
Proof.
  revert a; induction s as [|c r IH]; intro a; cbn [parse_digits String.length].
  - simpl; f_equal; lia.
  - destruct (_ && _); [|reflexivity].
    rewrite (IH (a * 10 + _)%Z), (IH (0 * 10 + _)%Z).
    destruct (parse_digits r 0); [|reflexivity]; cbn [option_map]; f_equal.
    rewrite ?Zpos_P_of_succ_nat, ?Nat2Z.inj_succ, Z.pow_succ_r by lia; lia.
Qed.

Lemma parse_digits_bound s a v :
  (0 <= a)%Z -> parse_digits s a = Some v ->
  (a * 10 ^ Z.of_nat (String.length s) <= v < (a + 1) * 10 ^ Z.of_nat (String.length s))%Z.
Proof.
  revert a; induction s as [|c r IH]; intros a Ha H; cbn [parse_digits String.length] in *.
  - injection H as <-; simpl; lia.
  - destruct (Nat.leb 48 (nat_of_ascii c) && Nat.leb (nat_of_ascii c) 57) eqn:E;
      [|discriminate].
    apply andb_true_iff in E as [E1 E2]; apply Nat.leb_le in E1, E2.
    apply IH in H; [|lia].
    rewrite ?Zpos_P_of_succ_nat, ?Nat2Z.inj_succ, Z.pow_succ_r by lia.
    assert (P : (0 < 10 ^ Z.of_nat (String.length r))%Z) by (apply Z.pow_pos_nonneg; lia).
    nia.
Qed.

Lemma string_of_Z_nonneg z : (0 <= z)%Z -> string_of_Z z = string_of_nat (Z.to_nat z).
Proof. intro H; unfold string_of_Z; destruct (Z.ltb_spec z 0); [lia|reflexivity]. Qed.

Lemma parse_string_of_nat n : parse_digits (string_of_nat n) 0 = Some (Z.of_nat n).
Proof.
  destruct (parse_digits_of_nat (S n) n 0 ltac:(lia)) as [L E].
  unfold string_of_nat; rewrite E; reflexivity.
Qed.

(** The number of digits of [n >= 1] is [L + 1] when [10^L <= n < 10^(L+1)]. *)
Lemma string_of_nat_length n L :
  (10 ^ Z.of_nat L <= Z.of_nat n < 10 ^ Z.of_nat (S L))%Z ->
  String.length (string_of_nat n) = S L.
Proof.
  intro H.
  assert (H1 : 1 <= n).
  { assert (0 < 10 ^ Z.of_nat L)%Z by (apply Z.pow_pos_nonneg; lia); lia. }
  destruct (digits_of_nat_head (S n) n "" H1 ltac:(lia)) as [d [r [E B]]].
  pose proof (parse_string_of_nat n) as P; unfold string_of_nat in P |- *; rewrite E in P |- *.
  cbn [parse_digits String.length] in P |- *.
  replace (Nat.leb 48 (nat_of_ascii d) && Nat.leb (nat_of_ascii d) 57) with true in P
    by (symmetry; apply andb_true_iff; split; apply Nat.leb_le; lia).
  apply parse_digits_bound in P; [|lia].
  f_equal.
  destruct (Nat.lt_total (String.length r) L) as [Lt|[Eq|Gt]]; [|exact Eq|]; exfalso.
  - assert (10 * 10 ^ Z.of_nat (String.length r) <= 10 ^ Z.of_nat L)%Z.
    { rewrite <- Z.pow_succ_r by lia; apply Z.pow_le_mono_r; lia. }
    nia.
  - assert (10 ^ Z.of_nat (S L) <= 10 ^ Z.of_nat (String.length r))%Z
      by (apply Z.pow_le_mono_r; lia).
    nia.
Qed.

Lemma pad2_reads_back z :
  (1 <= z <= 99)%Z ->
  String.length (pad2 (string_of_Z z)) = 2 /\ parse_digits (pad2 (string_of_Z z)) 0 = Some z.
Proof.
  intro H; rewrite string_of_Z_nonneg by lia.
  pose proof (parse_string_of_nat (Z.to_nat z)) as P; rewrite Z2Nat.id in P by lia.
  destruct (Z.lt_ge_cases z 10).
  - unfold pad2; rewrite (string_of_nat_length _ 0) by (rewrite Z2Nat.id; simpl; lia).
    split; [|exact P].
    cbn [String.append String.length].
    rewrite (string_of_nat_length _ 0) by (rewrite Z2Nat.id; simpl; lia); reflexivity.
  - unfold pad2; rewrite (string_of_nat_length _ 1) by (rewrite Z2Nat.id; simpl; lia).
    split; [|exact P].
    rewrite (string_of_nat_length _ 1) by (rewrite Z2Nat.id; simpl; lia); reflexivity.
Qed.

Lemma civil_month_day_range days :
  let '(y, m, d) := civil_from_days days in (1 <= m <= 12 /\ 1 <= d <= 31)%Z.
Proof.
  unfold civil_from_days; cbv zeta.
  set (doe := (days + 719468 - (days + 719468) / 146097 * 146097)%Z).
  assert (Hd : (0 <= doe < 146097)%Z).
  { unfold doe; pose proof (Z.mod_pos_bound (days + 719468) 146097 ltac:(lia)).
    rewrite Z.mod_eq in H by lia; lia. }
  clearbody doe.
  set (yoe := ((doe - doe / 1460 + doe / 36524 - doe / 146096) / 365)%Z).
  set (doy := (doe - (365 * yoe + yoe / 4 - yoe / 100))%Z).
  assert (Hy : (0 <= doy <= 365)%Z) by (unfold doy, yoe; Z.div_mod_to_equations; lia).
  clearbody doy.
  destruct (Z.ltb_spec ((5 * doy + 2) / 153) 10); Z.div_mod_to_equations; lia.
Qed.

Lemma year_reads_back y :
  (1000 <= y <= 9999)%Z ->
  String.length (string_of_Z y) = 4 /\ parse_digits (string_of_Z y) 0 = Some y.
Proof.
  intro H; rewrite string_of_Z_nonneg by lia.
  pose proof (parse_string_of_nat (Z.to_nat y)) as P; rewrite Z2Nat.id in P by lia.
  split; [|exact P].
  apply string_of_nat_length; rewrite Z2Nat.id by lia; simpl; lia.
Qed.

(** For a finite timestamp whose local year has four digits, the date part of
    a file name is exactly eight decimal digits that read back as DDMMYYYY
    of the local calendar date, with a month in 1..12 and a day in 1..31. *)
Theorem formatUploadDate_reads_back tz ts n :
  js_to_number ts = Some n -> (Z.abs (n * 1000) <= max_time_value)%Z ->
  let '(y, m, d) := civil_from_days ((n * 1000 + tz (n * 1000)) / ms_per_day)%Z in
  (1000 <= y <= 9999)%Z ->
  String.length (formatUploadDate tz ts) = 8 /\
  parse_digits (formatUploadDate tz ts) 0 = Some (d * 1000000 + m * 10000 + y)%Z /\
  (1 <= m <= 12)%Z /\ (1 <= d <= 31)%Z.
Proof.
  intros Hn Hb; unfold formatUploadDate; rewrite Hn.
  replace (Z.ltb max_time_value (Z.abs (n * 1000))) with false
    by (symmetry; apply Z.ltb_ge; exact Hb).
  pose proof (civil_month_day_range ((n * 1000 + tz (n * 1000)) / ms_per_day)%Z) as R.
  destruct (civil_from_days _) as [[y m] d]; destruct R as [Rm Rd]; intro Hy.
  destruct (pad2_reads_back d ltac:(lia)) as [Ld Pd].
  destruct (pad2_reads_back m ltac:(lia)) as [Lm Pm].
  destruct (year_reads_back y Hy) as [Ly Py].
  repeat split; try lia.
  - rewrite !str_length_app, Ld, Lm, Ly; reflexivity.
  - rewrite !parse_digits_app, Pd, parse_digits_shift, parse_digits_app, Pm,
      parse_digits_shift, Py, str_length_app, Lm, Ly.
    cbn [option_map]; f_equal; simpl; lia.
Qed.

Lemma formatUploadDate_reads_back_witness :
  String.length (formatUploadDate (fun _ => 0%Z) (JNum 1709596800)) = 8 /\
  parse_digits (formatUploadDate (fun _ => 0%Z) (JNum 1709596800)) 0 = Some 5032024%Z.
Proof.
  pose proof (formatUploadDate_reads_back (fun _ => 0%Z) (JNum 1709596800) 1709596800
                eq_refl ltac:(apply Z.leb_le; reflexivity)) as W.
  assert (E : civil_from_days ((1709596800 * 1000 + 0) / ms_per_day)%Z = (2024, 3, 5)%Z)
    by reflexivity.
  cbv beta in W; rewrite E in W.
  destruct (W ltac:(split; apply Z.leb_le; reflexivity)) as [H1 [H2 _]].
  split; [exact H1|exact H2].
Defined.

(** ** [main] and [showSummary] *)

Lemma processUrl_ledger_grows env url s :
  exists r, ledger (processUrl env url s) = ledger s ++ r /\ length r <= 1.
Proof.
  rewrite processUrl_eq.
  assert (E1 : ledger (start_state s) = ledger s) by reflexivity.
  rewrite <- E1; generalize (start_state s) as s1; intro s1; clear E1.
  unfold try_catch, process_body.
  destruct (validateURL url); simpl.
  2: { exists []; rewrite app_nil_r; auto. }
  destruct (str_includes "/photo/" url); unfold bind.
  - pose proof (keeps_resolve_photo env url s1) as H2.
    destruct (resolve_photo env url s1) as [[[[[id imgs] ct] au]|e] s2]; simpl in H2 |- *.
    + pose proof (downloadImages_ledger env url id imgs ct au s2) as H3.
      destruct (downloadImages env url id imgs ct au s2) as [[[]|e3] s3]; simpl in H3 |- *.
      * destruct H3 as [n H3]; eexists; rewrite H3, H2; split; [reflexivity|simpl; lia].
      * eexists; rewrite H3, H2; split; [reflexivity|simpl; lia].
    + exists []; rewrite app_nil_r, H2; split; [reflexivity|simpl; lia].
  - pose proof (keeps_resolve_video env url s1) as H2.
    destruct (resolve_video env url s1) as [[[vd meth]|e] s2]; simpl in H2 |- *.
    + pose proof (downloadVideo_ledger env vd url
                    (snd (spin_ev (SpinText ("Downloading video (" ++ meth ++ ")...")) s2)))
        as H3.
      simpl in H3.
      destruct (downloadVideo env vd url _) as [[fn|e3] s3]; simpl in H3 |- *.
      * eexists; rewrite H3, H2; split; [reflexivity|simpl; lia].
      * eexists; rewrite H3, H2; split; [reflexivity|simpl; lia].
    + exists []; rewrite app_nil_r, H2; split; [reflexivity|simpl; lia].
Qed.

(** The loop of [main] ends exactly when a round answers "no" to "download
    again?", every earlier round answered "yes", and every round up to that
    one typed a non-empty line. *)
Theorem main_loop_runs_until_no env rounds s :
  main_loop env rounds s <> None <->
  exists pre typed post,
    rounds = pre ++ (typed, false) :: post /\
    Forall (fun r => snd r = true /\ first_nonempty (fst r) <> None) pre /\
    first_nonempty typed <> None.
Proof.
  revert s; induction rounds as [|[typed again] rest IH]; intro s; cbn [main_loop].
  - split; [congruence|].
    intros [pre [t [post [E _]]]]; destruct pre; discriminate.
  - destruct (first_nonempty typed) as [u|] eqn:F.
    + destruct again.
      * rewrite IH; split.
        -- intros [pre [t [post [E [Fa Ft]]]]]; exists ((typed, true) :: pre), t, post.
           rewrite E; split; [reflexivity|split; [|exact Ft]].
           constructor; [split; [reflexivity|cbn; congruence]|exact Fa].
        -- intros [pre [t [post [E [Fa Ft]]]]]; destruct pre as [|r0 pre].
           ++ injection E; intros; discriminate.
           ++ injection E as <- E; inversion Fa; subst; exists pre, t, post; auto.
      * split; [intros _|congruence].
        exists [], typed, rest; repeat split; [constructor|congruence].
    + split; [congruence|].
      intros [pre [t [post [E [Fa Ft]]]]]; destruct pre as [|r0 pre].
      * injection E as -> _; contradiction.
      * injection E as <- _; inversion Fa as [|? ? [_ Hr] _]; subst; contradiction.
Qed.

(** When [main] ends, the summary has at most one row per round: nothing is
    printed when no record was made, otherwise one row per record in order. *)
Theorem main_summary_rows env rounds out :
  main env rounds = Some out ->
  exists recs, length recs <= length rounds /\
    out = match recs with [] => None | _ => Some (map summary_row recs) end.
Proof.
  unfold main.
  assert (G : forall rounds s s', main_loop env rounds s = Some s' ->
                exists recs, ledger s' = ledger s ++ recs /\ length recs <= length rounds).
  { clear; induction rounds as [|[typed again] rest IH]; intros s s' H; cbn in H;
      [discriminate|].
    destruct (first_nonempty typed); [|discriminate].
    destruct (processUrl_ledger_grows env (js_trim s0) s) as [r [Er Lr]].
    destruct again.
    - destruct (IH _ _ H) as [recs [E L]]; exists (r ++ recs).
      rewrite E, Er, app_assoc; split; [reflexivity|rewrite length_app; cbn; lia].
    - injection H as <-; exists r; split; [exact Er|cbn; lia]. }
  intro H; destruct (main_loop env rounds initial_state) as [s'|] eqn:E; [|discriminate].
  injection H as <-; destruct (G _ _ _ E) as [recs [Er L]].
  exists recs; split; [exact L|]; unfold showSummary; rewrite Er; reflexivity.
Qed.

Lemma main_summary_rows_witness :
  exists recs, length recs <= 1 /\
    Some [[JStr "Photo"; JStr "ab"; JStr "Failed"; JStr "Request failed with status code 404"]] =
    match recs with [] => None | _ => Some (map summary_row recs) end.
Proof.
  apply (main_summary_rows Inputs.photo3_env [([""; Inputs.photo_url], false)]).
  vm_compute; reflexivity.
Defined.

(** ** [YouTubeService] *)

Lemma xget_ok v p x : xget v p = XOk x <-> get v p = ROk x.
Proof. unfold xget; destruct (get v p); split; congruence. Qed.

Lemma get_not_nullish v p x : get v p = ROk x -> v <> JUndef /\ v <> JNull.
Proof. destruct v; cbn; split; congruence. Qed.

(** [getVideoInfo] returns [info] exactly when the URL validates, ytdl's
    [getInfo] resolves to [info], and [info.videoDetails.isPrivate] is
    readable and falsy. *)
Theorem getVideoInfo_ok yt url info :
  getVideoInfo yt url = XOk info <->
  validateUrl yt url = true /\ ytdl_getInfo yt url = inl info /\
  exists vd p, get info "videoDetails" = ROk vd /\ get vd "isPrivate" = ROk p /\
               truthy p = false.
Proof.
  unfold getVideoInfo; destruct (validateUrl yt url); cbn [negb].
  2: { split; [discriminate|intros [H _]; discriminate]. }
  destruct (ytdl_getInfo yt url) as [i|v]; cbn [lib xbind xcatch].
  2: { split; [|intros [_ [H _]]; discriminate].
       destruct (exn_message (JsThrow v)); cbn; discriminate. }
  unfold xget at 1; destruct (get i "videoDetails") as [vd|m] eqn:Ev; cbn [xbind].
  2: { split; [|intros [_ [Hi [vd [p [H _]]]]]; injection Hi as ->; congruence].
       cbn; discriminate. }
  unfold xget at 1; destruct (get vd "isPrivate") as [p|m] eqn:Ep; cbn [xbind].
  2: { split; [|intros [_ [Hi [vd' [p [H1 [H2 _]]]]]]; injection Hi as ->; congruence].
       cbn; discriminate. }
  destruct (truthy p) eqn:Tp.
  { split; [cbn; discriminate|intros [_ [Hi [vd' [p' [H1 [H2 H3]]]]]]; injection Hi as ->].
    rewrite Ev in H1; injection H1 as <-; congruence. }
  unfold xget at 1; rewrite Ev; cbn [xbind].
  destruct (get_not_nullish _ _ _ Ep) as [N1 N2].
  assert (Ea : exists a, get vd "age_restricted" = ROk a)
    by (destruct vd; try congruence; eexists; reflexivity).
  destruct Ea as [a Ea]; unfold xget; rewrite Ea; cbn.
  split.
  - intro H; injection H as <-; split; [reflexivity|split; [reflexivity|eauto]].
  - intros [_ [H _]]; injection H as ->; reflexivity.
Qed.

(** Every failure of [getVideoInfo] is a [VideoDownloadError] with code
    INVALID_URL (exactly when validation fails), VIDEO_PRIVATE or
    METADATA_FETCH_FAILED, except when [getInfo] rejects with [undefined] or
    [null], where reading [error.message] throws a TypeError instead. *)
Theorem getVideoInfo_errors yt url e :
  getVideoInfo yt url = XErr e ->
  match e with
  | VideoDownloadError m c =>
      (c = "INVALID_URL" /\ m = "Invalid YouTube URL provided" /\ validateUrl yt url = false)
      \/ (c = "VIDEO_PRIVATE" /\ m = "Video is private" /\ validateUrl yt url = true)
      \/ (c = "METADATA_FETCH_FAILED" /\ validateUrl yt url = true)
  | JsThrow _ =>
      validateUrl yt url = true /\
      (ytdl_getInfo yt url = inr JUndef \/ ytdl_getInfo yt url = inr JNull)
  end.
Proof.
  unfold getVideoInfo; destruct (validateUrl yt url); cbn [negb].
  2: { intro H; injection H as <-; left; auto. }
  destruct (ytdl_getInfo yt url) as [i|v] eqn:G; cbn [lib xbind xcatch].
  - unfold xget at 1; destruct (get i "videoDetails") as [vd|m] eqn:Ev; cbn [xbind].
    2: { intro H; injection H as <-; auto. }
    unfold xget at 1; destruct (get vd "isPrivate") as [p|m] eqn:Ep; cbn [xbind].
    2: { intro H; injection H as <-; auto. }
    destruct (truthy p).
    { intro H; injection H as <-; auto. }
    unfold xget at 1; rewrite Ev; cbn [xbind].
    unfold xget; destruct (get vd "age_restricted"); cbn.
    + discriminate.
    + intro H; injection H as <-; auto.
  - destruct v; cbn; intro H; injection H as <-; auto.
Qed.

Lemma getVideoInfo_errors_witness :
  let yt := mkYtdl (fun _ => Some true) (fun _ => inr JUndef) (fun _ _ => inr JUndef)
                   (fun _ _ => inr JUndef) in
  ytdl_getInfo yt "https://youtu.be/x" = inr JUndef.
Proof.
  intro yt.
  destruct (getVideoInfo_errors yt "https://youtu.be/x"
              (JsThrow (type_error_obj (type_error "undefined" "message"))) eq_refl)
    as [_ [H|H]]; [exact H|discriminate].
Defined.

(** A rejection of [getInfo] with an error object is wrapped into a
    METADATA_FETCH_FAILED error carrying its message, or "Failed to fetch
    video metadata" when the message is falsy. *)
Theorem getVideoInfo_wraps_rejection yt url fields :
  validateUrl yt url = true -> ytdl_getInfo yt url = inr (JObj fields) ->
  getVideoInfo yt url =
  XErr (VideoDownloadError
          (js_to_string (js_or (assoc "message" fields) (JStr "Failed to fetch video metadata")))
          "METADATA_FETCH_FAILED").
Proof. intros Hv Hg; unfold getVideoInfo; rewrite Hv, Hg; reflexivity. Qed.

Lemma getVideoInfo_ok_not_nullish yt url info :
  getVideoInfo yt url = XOk info -> info <> JUndef /\ info <> JNull.
Proof.
  unfold getVideoInfo; destruct (validateUrl yt url); cbn [negb]; [|discriminate].
  destruct (ytdl_getInfo yt url) as [i|v]; cbn [lib xbind xcatch].
  2: { destruct (exn_message (JsThrow v)); cbn; discriminate. }
  unfold xget at 1; destruct (get i "videoDetails") as [vd|m] eqn:Ev; cbn [xbind];
    [|cbn; discriminate].
  unfold xget at 1; destruct (get vd "isPrivate") as [p|m]; cbn [xbind]; [|cbn; discriminate].
  destruct (truthy p); [cbn; discriminate|].
  unfold xget at 1; rewrite Ev; cbn [xbind].
  unfold xget; destruct (get vd "age_restricted"); cbn; [|discriminate].
  intro H; injection H as <-; exact (get_not_nullish _ _ _ Ev).
Qed.

Lemma getVideoInfo_wraps_rejection_witness :
  let yt := mkYtdl (fun _ => Some true)
                   (fun _ => inr (JObj [("message", JStr "Status code: 410")]))
                   (fun _ _ => inr JUndef) (fun _ _ => inr JUndef) in
  getVideoInfo yt "https://youtu.be/x" =
    XErr (VideoDownloadError "Status code: 410" "METADATA_FETCH_FAILED").
Proof.
  intro yt.
  exact (getVideoInfo_wraps_rejection yt "https://youtu.be/x" [("message", JStr "Status code: 410")]
           eq_refl eq_refl).
Defined.

Lemma get_truthy_obj_ok v p : v <> JUndef -> v <> JNull -> exists x, get v p = ROk x.
Proof.
  intros; destruct v; try congruence; unfold get;
    repeat match goal with |- context [match ?c with _ => _ end] => destruct c end; eauto.
Qed.

(** A failure of [downloadMp4] is either the failure of [getVideoInfo],
    unchanged, or an exception of [chooseFormat], unwrapped, or FORMAT_UNAVAILABLE
    for a falsy format, or DOWNLOAD_INIT_FAILED; the only other case is a
    [downloadFromInfo] that throws [undefined] or [null]. *)
Theorem downloadMp4_errors yt url e :
  downloadMp4 yt url = XErr e ->
  getVideoInfo yt url = XErr e \/
  exists info formats,
    getVideoInfo yt url = XOk info /\ get info "formats" = ROk formats /\
    ((exists v, ytdl_chooseFormat yt formats mp4_filter = inr v /\ e = JsThrow v) \/
     (exists f, ytdl_chooseFormat yt formats mp4_filter = inl f /\ truthy f = false /\
        e = VideoDownloadError "No suitable MP4 (Audio+Video) format found"
                               "FORMAT_UNAVAILABLE") \/
     (exists f, ytdl_chooseFormat yt formats mp4_filter = inl f /\ truthy f = true /\
        ((exists m, e = VideoDownloadError m "DOWNLOAD_INIT_FAILED") \/
         ((ytdl_downloadFromInfo yt info f = inr JUndef \/
           ytdl_downloadFromInfo yt info f = inr JNull) /\
          exists m, e = JsThrow (type_error_obj m))))).
Proof.
  intro H; unfold downloadMp4 in H.
  destruct (getVideoInfo yt url) as [info|e0] eqn:G; cbn [xbind] in H; [right|left; congruence].
  destruct (getVideoInfo_ok_not_nullish _ _ _ G) as [N1 N2].
  destruct (get_truthy_obj_ok info "formats" N1 N2) as [formats Ef].
  exists info, formats; split; [reflexivity|split; [exact Ef|]].
  unfold xget at 1 in H; rewrite Ef in H; cbn [xbind] in H.
  destruct (ytdl_chooseFormat yt formats mp4_filter) as [f|v] eqn:C; cbn [lib xbind] in H.
  2: { left; exists v; split; [reflexivity|congruence]. }
  right; destruct (truthy f) eqn:Tf; cbn [negb] in H.
  2: { left; exists f; repeat split; congruence. }
  right; exists f; split; [reflexivity|split; [exact Tf|]].
  destruct (ytdl_downloadFromInfo yt info f) as [st|v] eqn:D; cbn [lib xbind xcatch] in H.
  - unfold xget in H; destruct (get info "videoDetails") as [vd|m1]; cbn [xbind] in H.
    2: { cbn in H; injection H as <-; left; eauto. }
    destruct (get vd "title") as [t|m1]; cbn [xbind] in H.
    2: { cbn in H; injection H as <-; left; eauto. }
    destruct (title_replace t) as [ti|e1] eqn:Tr; cbn [xbind] in H.
    2: { destruct t; cbn in Tr; try discriminate; injection Tr as <-; cbn in H;
         injection H as <-; left; eauto. }
    destruct (get f "contentLength") as [cl|m1] eqn:Ecl; cbn [xbind] in H.
    + discriminate.
    + cbn in H; injection H as <-; left; eauto.
  - destruct v; cbn in H; injection H as <-;
      first [left; eexists; reflexivity | right; split; [auto | eexists; reflexivity]].
Qed.

Lemma downloadMp4_errors_witness :
  let info := JObj [("videoDetails", JObj [("isPrivate", JBool false)]); ("formats", JArr [])] in
  let yt := mkYtdl (fun _ => Some true) (fun _ => inl info)
                   (fun _ _ => inr (JObj [("message", JStr "No such format found")]))
                   (fun _ _ => inr JUndef) in
  exists i fm, getVideoInfo yt "https://youtu.be/x" = XOk i /\ get i "formats" = ROk fm.
Proof.
  intros info yt.
  destruct (downloadMp4_errors yt "https://youtu.be/x"
              (JsThrow (JObj [("message", JStr "No such format found")])) eq_refl)
    as [H|[i [fm [H1 [H2 _]]]]]; [discriminate|].
  exists i, fm; split; assumption.
Defined.

(** On success, the title is the video title with [/[^\w\s]/gi] removed (the
    title must be a string) and the size is [parseInt] of a truthy
    [contentLength], 0 otherwise. *)
Theorem downloadMp4_ok yt url r :
  downloadMp4 yt url = XOk r ->
  exists info formats f vd t cl,
    getVideoInfo yt url = XOk info /\ get info "formats" = ROk formats /\
    ytdl_chooseFormat yt formats mp4_filter = inl f /\ truthy f = true /\
    ytdl_downloadFromInfo yt info f = inl (mp4_stream r) /\
    get info "videoDetails" = ROk vd /\ get vd "title" = ROk (JStr t) /\
    get f "contentLength" = ROk cl /\
    mp4_title r = strip_non_word t /\
    mp4_size r = (if truthy cl then parseInt (js_to_string cl) else Some 0%Z).
Proof.
  intro H; unfold downloadMp4 in H.
  destruct (getVideoInfo yt url) as [info|e0] eqn:G; cbn [xbind] in H; [|discriminate].
  unfold xget at 1 in H; destruct (get info "formats") as [formats|m] eqn:Ef;
    cbn [xbind] in H; [|discriminate].
  destruct (ytdl_chooseFormat yt formats mp4_filter) as [f|v] eqn:C;
    cbn [lib xbind] in H; [|discriminate].
  destruct (truthy f) eqn:Tf; cbn [negb] in H; [|discriminate].
  destruct (ytdl_downloadFromInfo yt info f) as [st|v] eqn:D; cbn [lib xbind xcatch] in H.
  2: { destruct (exn_message (JsThrow v)); cbn in H; discriminate. }
  unfold xget at 1 in H; destruct (get info "videoDetails") as [vd|m] eqn:Ev;
    cbn [xbind] in H.
  2: { cbn in H; discriminate. }
  unfold xget at 1 in H; destruct (get vd "title") as [t|m] eqn:Et; cbn [xbind] in H.
  2: { cbn in H; discriminate. }
  destruct t; cbn [title_replace xbind] in H;
    try (cbn in H; discriminate).
  unfold xget in H; destruct (get f "contentLength") as [cl|m] eqn:Ecl; cbn [xbind] in H.
  2: { cbn in H; discriminate. }
  injection H as <-.
  exists info, formats, f, vd, s, cl; repeat split; auto.
Qed.

Lemma downloadMp4_ok_witness :
  let yt := mkYtdl (fun _ => Some true)
              (fun _ => inl (JObj [("videoDetails", JObj [("isPrivate", JBool false);
                                                           ("title", JStr "A, b!")]);
                                   ("formats", JArr [])]))
              (fun _ _ => inl (JObj [("container", JStr "mp4"); ("hasAudio", JBool true);
                                     ("hasVideo", JBool true); ("contentLength", JStr "1048576")]))
              (fun _ _ => inl (JStr "stream")) in
  mp4_title (mkMp4 (JStr "stream") "A b" (Some 1048576%Z)) = strip_non_word "A, b!".
Proof.
  intro yt.
  destruct (downloadMp4_ok yt "https://youtu.be/x" (mkMp4 (JStr "stream") "A b" (Some 1048576%Z))
              eq_refl)
    as [info [fm [f [vd [t [cl [G [_ [_ [_ [_ [Hv [Ht [_ [Hti _]]]]]]]]]]]]]]].
  injection G as <-; injection Hv as <-; injection Ht as <-; exact Hti.
Defined.

(** The format filter accepts exactly the formats whose [container] is the
    string "mp4" and whose [hasAudio] and [hasVideo] are the boolean [true]. *)
Theorem mp4_filter_true format :
  mp4_filter format = XOk true <->
  get format "container" = ROk (JStr "mp4") /\ get format "hasAudio" = ROk (JBool true) /\
  get format "hasVideo" = ROk (JBool true).
Proof.
  unfold mp4_filter, xget.
  destruct (get format "container") as [c|m]; cbn [xbind]; [|split; [discriminate|intuition congruence]].
  destruct (match c with JStr c0 => String.eqb c0 "mp4" | _ => false end) eqn:Ec; cbn [negb].
  2: { split; [discriminate|intros [H _]; injection H as ->; cbn in Ec; discriminate]. }
  assert (Hc : c = JStr "mp4")
    by (destruct c; try discriminate; apply String.eqb_eq in Ec; subst; reflexivity).
  subst c.
  destruct (get format "hasAudio") as [a|m]; cbn [xbind]; [|split; [discriminate|intuition congruence]].
  destruct (match a with JBool true => true | _ => false end) eqn:Ea; cbn [negb].
  2: { split; [discriminate|intros [_ [H _]]; injection H as ->; discriminate]. }
  assert (Ha : a = JBool true) by (destruct a as [| |[]| | | |]; try discriminate; reflexivity).
  subst a.
  destruct (get format "hasVideo") as [v|m]; cbn [xbind]; [|split; [discriminate|intuition congruence]].
  destruct v as [| |[]| | | |]; split; intuition congruence.
Qed.

(** ** [parseInt] and the title filter *)






Lemma strip_non_word_cons c r :
  nat_of_ascii c < 128 ->
  strip_non_word (String c r) =
  ((if is_word_char c || is_ws c then String c EmptyString else EmptyString)
   ++ strip_non_word r)%string.
Proof.
  intro H; unfold strip_non_word; cbn [String.length strip_non_word_f].
  replace (Nat.ltb (nat_of_ascii c) 128) with true by (symmetry; apply Nat.ltb_lt; exact H).
  destruct r; reflexivity.
Qed.

(** On ASCII input the title filter keeps exactly the word characters
    [A-Za-z0-9_] and the white space characters, in order. *)
Theorem strip_non_word_ascii s :
  forallb (fun c => Nat.ltb (nat_of_ascii c) 128) (list_ascii_of_string s) = true ->
  list_ascii_of_string (strip_non_word s) =
  filter (fun c => is_word_char c || is_ws c) (list_ascii_of_string s).
Proof.
  induction s as [|c r IH]; intro H; [reflexivity|].
  cbn [list_ascii_of_string forallb] in H; apply andb_true_iff in H as [Hc Hr].
  apply Nat.ltb_lt in Hc; rewrite strip_non_word_cons by exact Hc.
  cbn [list_ascii_of_string filter].
  destruct (is_word_char c || is_ws c); cbn; rewrite IH by exact Hr; reflexivity.
Qed.
